(** * Scrub: the URL cleaning routine [Scrub.clean_url] of src/Scrub/scrub.py

    The routine walks the providers of a ClearURLs rules document over a URL,
    threading the progressively rewritten URL through each provider's
    urlPattern / completeProvider / exceptions / redirections / rules /
    rawRules pipeline.  It returns [False] (the URL is blocked) or a string.

    The development has three layers:
    - [Py]: the values, exceptions and control flow of the Python code;
    - [PyLib]: the interface of the standard-library functions the routine
      calls ([re.match], [re.sub], [urlparse], [parse_qsl], [urlencode],
      [urlunparse], [unquote]); the routine is embedded over any
      implementation of it, and the general theorems hold for all of them;
    - [Re] and [UrlLib]: an executable model of these functions on ASCII
      text, used to run the routine on concrete URLs and rules documents.

    Strings are sequences of 8-bit characters, and every one of them is
    text the library's codecs accept.  A Python [str] can also hold a lone
    surrogate, which UTF-8 cannot encode and on which [urlencode] raises
    UnicodeEncodeError; such a string has no counterpart here, and
    [parse_qsl], [urlencode], [urlunparse] and [unquote] are total.  What
    is proved about the exceptions of the routine is proved within this
    scope.

    The rules document is taken well typed: every provider has a
    urlPattern, and the patterns are strings.  Patterns are compiled where
    the code compiles them, at each [re.match] and [re.sub] call, so that a
    pattern that does not compile raises [re.error] when it is reached.
    The warning the routine logs when a redirection pattern has no group
    is its only effect besides its result, and is left out. *)

From Stdlib Require Import String Ascii List Bool Arith Lia Permutation.
Import ListNotations.
Open Scope string_scope.

(** ** Python values, exceptions and early exits *)

Module Py.

(** The exceptions that can travel through [clean_url]. *)
Inductive exn : Type :=
| re_error      (* re.error: a pattern does not compile *)
| IndexError    (* match.group(1) on a pattern without group 1 *)
| ValueError.   (* urlparse on a URL it rejects *)

Inductive result (A : Type) : Type :=
| Ok (a : A)
| Raise (e : exn).
Arguments Ok {A} a.
Arguments Raise {A} e.

Definition bind {A B : Type} (m : result A) (k : A -> result B) : result B :=
  match m with
  | Ok a => k a
  | Raise e => Raise e
  end.

(** [try: body / except IndexError: handler]. *)
Definition try_except_IndexError {A : Type} (body handler : result A) : result A :=
  match body with
  | Raise IndexError => handler
  | r => r
  end.

(** What [clean_url] returns: [False] or a [str]. *)
Inductive value : Type :=
| PFalse
| PStr (s : string).

(** The state of a loop iteration of the function body: the loop goes on
    with the current URL, or the function has returned. *)
Inductive flow : Type :=
| Continue (url : string)
| Return (v : value).

(** Truth value of [match.group(1)]: [None] and [''] are false. *)
Definition truthy (g : option string) : bool :=
  match g with
  | Some EmptyString => false
  | Some _ => true
  | None => false
  end.

Definition str_of (g : option string) : string :=
  match g with
  | Some s => s
  | None => ""
  end.

End Py.
Export Py.

Notation "x <- m ;; k" := (bind m (fun x => k))
  (at level 61, m at next level, right associativity).

(** ** The standard-library interface *)

Inductive re_flag : Type :=
| NOFLAG
| IGNORECASE.

(** A match object: group 0 (the whole match) followed by the pattern's
    capture groups; a group that took no part in the match is [None]. *)
Record Match : Type := mkMatch { groups : list (option string) }.

(** [match.group(i)]: IndexError when the pattern has no group [i]. *)
Definition group (m : Match) (i : nat) : result (option string) :=
  match nth_error (groups m) i with
  | Some g => Ok g
  | None => Raise IndexError
  end.

(** [urllib.parse.ParseResult], the 6-tuple of [urlparse] and [urlunparse]. *)
Record ParseResult : Type := mkParseResult {
  scheme : string;
  netloc : string;
  path : string;
  params : string;
  query : string;
  fragment : string
}.

Class PyLib : Type := {
  Pattern : Type;
  (** [re.compile(pattern, flags)]; [None] stands for [re.error]. *)
  re_compile : string -> re_flag -> option Pattern;
  (** [Pattern.match(string)]: a match anchored at position 0. *)
  Pattern_match : Pattern -> string -> option Match;
  (** [Pattern.sub(repl, string)]. *)
  Pattern_sub : Pattern -> string -> string -> string;
  (** [urlparse(url)]; [None] stands for [ValueError]. *)
  urlparse : string -> option ParseResult;
  parse_qsl : string -> list (string * string);
  (** [urlencode(query)]; total on the strings of the model, which hold no
      lone surrogate. *)
  urlencode : list (string * string) -> string;
  urlunparse : ParseResult -> string;
  unquote : string -> string
}.

(** ** The rules document *)

(** A provider of the rules document.  The fields read with
    [provider.get(key, [])] are lists, an absent key being the empty list;
    [completeProvider] is the truth value of [provider.get('completeProvider')]. *)
Record Provider : Type := mkProvider {
  urlPattern : string;
  completeProvider : bool;
  exceptions : list string;
  redirections : list string;
  rules : list string;
  referralMarketing : list string;
  rawRules : list string
}.

(** The rules document: [providers] is [None] when the key is absent.  The
    dict of providers is kept as the list of its items, in insertion order. *)
Record Rules : Type := mkRules {
  providers : option (list (string * Provider))
}.

(** [rules.get('providers', {}).items()] *)
Definition providers_items (rules : Rules) : list (string * Provider) :=
  match providers rules with
  | Some ps => ps
  | None => []
  end.

(** ** The embedding of [clean_url] *)

Section CleanUrl.

Context {L : PyLib}.

(** [re.match(pattern, string, flags)] *)
Definition re_match (pattern s : string) (flags : re_flag) : result (option Match) :=
  match re_compile pattern flags with
  | Some p => Ok (Pattern_match p s)
  | None => Raise re_error
  end.

(** [re.sub(pattern, repl, string)] *)
Definition re_sub (pattern repl s : string) : result string :=
  match re_compile pattern NOFLAG with
  | Some p => Ok (Pattern_sub p repl s)
  | None => Raise re_error
  end.

Definition urlparse_exn (url : string) : result ParseResult :=
  match urlparse url with
  | Some p => Ok p
  | None => Raise ValueError
  end.

Definition is_match (m : option Match) : bool :=
  match m with
  | Some _ => true
  | None => false
  end.

(** [any(re.match(exc, url, re.IGNORECASE) for exc in exceptions)]:
    the generator stops at the first match. *)
Fixpoint any_exception (excs : list string) (url : string) : result bool :=
  match excs with
  | [] => Ok false
  | exc :: rest =>
      m <- re_match exc url IGNORECASE ;;
      if is_match m then Ok true else any_exception rest url
  end.

(** [[param for param in query_params
      if not re.match(rule, param[0], re.IGNORECASE)]] *)
Fixpoint keep_params (rule : string) (query_params : list (string * string))
  : result (list (string * string)) :=
  match query_params with
  | [] => Ok []
  | param :: rest =>
      m <- re_match rule (fst param) IGNORECASE ;;
      kept <- keep_params rule rest ;;
      Ok (if is_match m then kept else param :: kept)
  end.

(** The loop over the rules followed by the referralMarketing rules. *)
Fixpoint for_rules (rs : list string) (query_params : list (string * string))
  : result (list (string * string)) :=
  match rs with
  | [] => Ok query_params
  | rule :: rest =>
      kept <- keep_params rule query_params ;;
      for_rules rest kept
  end.

(** The loop over [rawRules]. *)
Fixpoint for_raw_rules (rs : list string) (url : string) : result string :=
  match rs with
  | [] => Ok url
  | raw_rule :: rest =>
      url' <- re_sub raw_rule "" url ;;
      for_raw_rules rest url'
  end.

Section Body.

(** [self] is the recursive call [self.clean_url(_, rules, False)] and
    [loop] the parameter of the running call. *)
Variable self : string -> result value.
Variable loop : bool.

(** The body of the [try] block of one redirection pattern. *)
Definition redirect_try (m : option Match) (url : string) : result flow :=
  match m with
  | None => Ok (Continue url)
  | Some mo =>
      g <- group mo 1 ;;
      if truthy g then
        if loop then
          v <- self (unquote (str_of g)) ;;
          Ok (Return v)
        else
          Ok (Continue (unquote (str_of g)))
      else Ok (Continue url)
  end.

(** The loop over [redirections].  The [re.match] call is outside the
    [try]; the handler logs a warning and goes on with the next
    pattern, the URL being as it was. *)
Fixpoint for_redirections (redirs : list string) (url : string) : result flow :=
  match redirs with
  | [] => Ok (Continue url)
  | redir :: rest =>
      m <- re_match redir url IGNORECASE ;;
      r <- try_except_IndexError (redirect_try m url) (Ok (Continue url)) ;;
      match r with
      | Return v => Ok (Return v)
      | Continue url' => for_redirections rest url'
      end
  end.

(** Lines 71-90: the query of the URL parsed into pairs, the pairs
    filtered by the rules, the URL rebuilt. *)
Definition clean_query (provider : Provider) (url : string) : result string :=
  parsed_url <- urlparse_exn url ;;
  query_params <- for_rules (rules provider ++ referralMarketing provider)
                    (parse_qsl (query parsed_url)) ;;
  Ok (urlunparse (mkParseResult (scheme parsed_url) (netloc parsed_url)
                    (path parsed_url) (params parsed_url)
                    (urlencode query_params) (fragment parsed_url))).

(** Lines 71-94: what follows the loop over the redirections, the raw
    rules being applied to the rebuilt URL. *)
Definition after_redirections (provider : Provider) (url : string) : result flow :=
  url1 <- clean_query provider url ;;
  url2 <- for_raw_rules (rawRules provider) url1 ;;
  Ok (Continue url2).

(** One iteration of the loop over the providers. *)
Definition provider_step (provider : Provider) (url : string) : result flow :=
  m <- re_match (urlPattern provider) url IGNORECASE ;;
  if negb (is_match m) then Ok (Continue url)
  else if completeProvider provider then Ok (Return PFalse)
  else
    exc <- any_exception (exceptions provider) url ;;
    if exc then Ok (Continue url)
    else
      r <- for_redirections (redirections provider) url ;;
      match r with
      | Return v => Ok (Return v)
      | Continue url' => after_redirections provider url'
      end.

(** The loop over the providers, and the final [return url]. *)
Fixpoint for_providers (ps : list (string * Provider)) (url : string) : result value :=
  match ps with
  | [] => Ok (PStr url)
  | (_, provider) :: rest =>
      r <- provider_step provider url ;;
      match r with
      | Return v => Ok v
      | Continue url' => for_providers rest url'
      end
  end.

(** The providers [ps] run one after the other without the final
    [return]: where the loop stands after them. *)
Fixpoint run_providers (ps : list (string * Provider)) (url : string) : result flow :=
  match ps with
  | [] => Ok (Continue url)
  | (_, provider) :: rest =>
      r <- provider_step provider url ;;
      match r with
      | Return v => Ok (Return v)
      | Continue url' => run_providers rest url'
      end
  end.

End Body.

(** The call with [loop = False] never calls itself: its [self] is never
    used (see [for_providers_no_loop]). *)
Definition clean_url_no_loop (url : string) (rules : Rules) : result value :=
  for_providers (fun _ => Ok PFalse) false (providers_items rules) url.

(** [clean_url(url, rules, loop)]; the recursive call passes [False]. *)
Definition clean_url (url : string) (rules : Rules) (loop : bool) : result value :=
  for_providers (fun target => clean_url_no_loop target rules) loop
    (providers_items rules) url.

End CleanUrl.

(** ** An executable model of [re] on ASCII text

    A backtracking matcher in continuation-passing style, with the priority
    order of Python's engine: alternatives left to right, greedy repetition
    longest first, lazy repetition shortest first.  The patterns accepted are
    the fragment of Python's syntax made of literal characters, [\]-escaped
    punctuation, [\n \t \r], [\d \D \w \W \s \S], [.], [^], [$], character
    sets with ranges and negation, capturing groups, [(?:...)], [|] and the
    quantifiers [* + ?] with their lazy forms.  A quantifier over a
    sub-pattern that can match the empty string, and every other construct of
    Python's syntax, is outside the fragment: [compile] rejects it, while
    Python accepts some of those. *)

Module Re.

Local Open Scope char_scope.

Inductive cls_item : Type :=
| CRange (lo hi : ascii)
| CDigit (negated : bool)
| CWord (negated : bool)
| CSpace (negated : bool).

Inductive regex : Type :=
| Eps
| Chr (c : ascii)
| Any
| Cls (negated : bool) (items : list cls_item)
| Bol
| Eol
| Seq (r1 r2 : regex)
| Alt (r1 r2 : regex)
| Star (greedy : bool) (r : regex)
| Grp (n : nat) (r : regex).

Definition between (lo hi : nat) (c : ascii) : bool :=
  ((lo <=? nat_of_ascii c) && (nat_of_ascii c <=? hi))%nat.

Definition is_upper (c : ascii) : bool := between 65 90 c.
Definition is_lower (c : ascii) : bool := between 97 122 c.
Definition is_digit (c : ascii) : bool := between 48 57 c.
Definition is_alpha (c : ascii) : bool := is_upper c || is_lower c.
Definition is_alnum (c : ascii) : bool := is_alpha c || is_digit c.
Definition is_word (c : ascii) : bool := is_alnum c || Ascii.eqb c "_".
(** [\s] on ASCII: space, \t \n \v \f \r and the separators 28-31. *)
Definition is_space (c : ascii) : bool :=
  Ascii.eqb c " " || between 9 13 c || between 28 31 c.

Definition lower (c : ascii) : ascii :=
  if is_upper c then ascii_of_nat (nat_of_ascii c + 32) else c.
Definition upper (c : ascii) : ascii :=
  if is_lower c then ascii_of_nat (nat_of_ascii c - 32) else c.

Definition newline : ascii := ascii_of_nat 10.

Definition chr_match (ci : bool) (c x : ascii) : bool :=
  if ci then Ascii.eqb (lower c) (lower x) else Ascii.eqb c x.

Definition in_range (lo hi x : ascii) : bool :=
  between (nat_of_ascii lo) (nat_of_ascii hi) x.

Definition item_match (ci : bool) (x : ascii) (i : cls_item) : bool :=
  match i with
  | CRange lo hi =>
      in_range lo hi x || (ci && (in_range lo hi (lower x) || in_range lo hi (upper x)))
  | CDigit neg => xorb neg (is_digit x)
  | CWord neg => xorb neg (is_word x)
  | CSpace neg => xorb neg (is_space x)
  end.

Definition cls_match (ci neg : bool) (items : list cls_item) (x : ascii) : bool :=
  xorb neg (existsb (item_match ci x) items).

(** The state of a match attempt: the position in the subject, what is
    left of it, and the capture groups 1, 2, ... set so far. *)
Record mstate : Type := mkState {
  pos : nat;
  rest : list ascii;
  caps : list (option string)
}.

Definition advance (s : mstate) : mstate :=
  mkState (S (pos s)) (tl (rest s)) (caps s).

Fixpoint set_nth (n : nat) (v : option string) (l : list (option string)) : list (option string) :=
  match n, l with
  | _, [] => []
  | O, _ :: t => v :: t
  | S m, h :: t => h :: set_nth m v t
  end.

(** Group [n] captured the text between the states [s0] and [s1]. *)
Definition set_cap (n : nat) (s0 s1 : mstate) : mstate :=
  mkState (pos s1) (rest s1)
    (set_nth (n - 1)
       (Some (string_of_list_ascii (firstn (pos s1 - pos s0) (rest s0))))
       (caps s1)).

Definition one_char (ok : ascii -> bool) (k : mstate -> option mstate) (s : mstate) : option mstate :=
  match rest s with
  | x :: _ => if ok x then k (advance s) else None
  | [] => None
  end.

Fixpoint rmatch (ci : bool) (r : regex) (k : mstate -> option mstate) (s : mstate)
  {struct r} : option mstate :=
  match r with
  | Eps => k s
  | Chr c => one_char (chr_match ci c) k s
  | Any => one_char (fun x => negb (Ascii.eqb x newline)) k s
  | Cls neg items => one_char (cls_match ci neg items) k s
  | Bol => if (pos s =? 0)%nat then k s else None
  | Eol =>
      match rest s with
      | [] => k s
      | [x] => if Ascii.eqb x newline then k s else None
      | _ => None
      end
  | Seq r1 r2 => rmatch ci r1 (rmatch ci r2 k) s
  | Alt r1 r2 =>
      match rmatch ci r1 k s with
      | Some s' => Some s'
      | None => rmatch ci r2 k s
      end
  | Star greedy r1 =>
      (fix iter (fuel : nat) (s0 : mstate) {struct fuel} : option mstate :=
         match fuel with
         | O => k s0
         | S f =>
             let again := fun s1 => if (pos s0 <? pos s1)%nat then iter f s1 else None in
             if greedy then
               match rmatch ci r1 again s0 with
               | Some s' => Some s'
               | None => k s0
               end
             else
               match k s0 with
               | Some s' => Some s'
               | None => rmatch ci r1 again s0
               end
         end) (S (length (rest s))) s
  | Grp n r1 => rmatch ci r1 (fun s1 => k (set_cap n s s1)) s
  end.

(** *** The pattern syntax *)

Fixpoint nullable (r : regex) : bool :=
  match r with
  | Eps | Bol | Eol | Star _ _ => true
  | Chr _ | Any | Cls _ _ => false
  | Seq r1 r2 => nullable r1 && nullable r2
  | Alt r1 r2 => nullable r1 || nullable r2
  | Grp _ r1 => nullable r1
  end.

Definition is_punct (c : ascii) : bool :=
  between 33 126 c && negb (is_alnum c).

(** The character or category denoted by [\c]. *)
Definition escape (c : ascii) : option cls_item :=
  match c with
  | "d" => Some (CDigit false)
  | "D" => Some (CDigit true)
  | "w" => Some (CWord false)
  | "W" => Some (CWord true)
  | "s" => Some (CSpace false)
  | "S" => Some (CSpace true)
  | "n" => Some (CRange newline newline)
  | "t" => Some (CRange (ascii_of_nat 9) (ascii_of_nat 9))
  | "r" => Some (CRange (ascii_of_nat 13) (ascii_of_nat 13))
  | _ => if is_punct c then Some (CRange c c) else None
  end.

Definition item_regex (i : cls_item) : regex :=
  match i with
  | CRange lo hi => if Ascii.eqb lo hi then Chr lo else Cls false [i]
  | _ => Cls false [i]
  end.

(** One member of a character set: a character or an escape. *)
Definition cls_atom (s : list ascii) : option (cls_item * list ascii) :=
  match s with
  | "\" :: c :: s' =>
      match escape c with
      | Some i => Some (i, s')
      | None => None
      end
  | "\" :: [] => None
  | c :: s' => Some (CRange c c, s')
  | [] => None
  end.

(** The members of a character set up to the closing bracket. *)
Fixpoint cls_items (fuel : nat) (first : bool) (s : list ascii)
  : option (list cls_item * list ascii) :=
  match fuel with
  | O => None
  | S f =>
      match s with
      | [] => None
      | "]" :: s' => if first then None else Some ([], s')
      | _ =>
          match cls_atom s with
          | None => None
          | Some (i, s1) =>
              let single :=
                match cls_items f false s1 with
                | Some (its, s3) => Some (i :: its, s3)
                | None => None
                end in
              match s1 with
              | "-" :: c :: s2 =>
                  if Ascii.eqb c "]" then single
                  else
                    match i, cls_atom (c :: s2) with
                    | CRange lo lo', Some (CRange hi hi', s3) =>
                        if Ascii.eqb lo lo' && Ascii.eqb hi hi'
                           && (nat_of_ascii lo <=? nat_of_ascii hi)%nat then
                          match cls_items f false s3 with
                          | Some (its, s4) => Some (CRange lo hi :: its, s4)
                          | None => None
                          end
                        else None
                    | _, _ => None
                    end
              | _ => single
              end
          end
      end
  end.

Definition is_quantifier (c : ascii) : bool :=
  match c with
  | "*" | "+" | "?" => true
  | _ => false
  end.

(** The quantifier that may follow the atom [a]. *)
Definition quantified (a : regex) (s : list ascii) : option (regex * list ascii) :=
  match s with
  | q :: s1 =>
      if is_quantifier q then
        let (greedy, s2) :=
          match s1 with
          | "?" :: s2 => (false, s2)
          | _ => (true, s1)
          end in
        match s2 with
        | "*" :: _ | "+" :: _ | "?" :: _ | "{" :: _ => None
        | _ =>
            if nullable a then None
            else
              match q with
              | "*" => Some (Star greedy a, s2)
              | "+" => Some (Seq a (Star greedy a), s2)
              | _ => Some (if greedy then Alt a Eps else Alt Eps a, s2)
              end
        end
      else Some (a, s)
  | [] => Some (a, s)
  end.

(** The parser: [n] is the number of the next capturing group. *)
Fixpoint parse_alt (fuel n : nat) (s : list ascii) {struct fuel}
  : option (regex * nat * list ascii) :=
  match fuel with
  | O => None
  | S f =>
      match parse_seq f n s with
      | Some (r1, n1, "|" :: s1) =>
          match parse_alt f n1 s1 with
          | Some (r2, n2, s2) => Some (Alt r1 r2, n2, s2)
          | None => None
          end
      | other => other
      end
  end

with parse_seq (fuel n : nat) (s : list ascii) {struct fuel}
  : option (regex * nat * list ascii) :=
  match fuel with
  | O => None
  | S f =>
      match s with
      | [] => Some (Eps, n, s)
      | "|" :: _ => Some (Eps, n, s)
      | ")" :: _ => Some (Eps, n, s)
      | _ =>
          match parse_atom f n s with
          | Some (a, n1, s1) =>
              match quantified a s1 with
              | Some (a', s2) =>
                  match parse_seq f n1 s2 with
                  | Some (Eps, n2, s3) => Some (a', n2, s3)
                  | Some (r, n2, s3) => Some (Seq a' r, n2, s3)
                  | None => None
                  end
              | None => None
              end
          | None => None
          end
      end
  end

with parse_atom (fuel n : nat) (s : list ascii) {struct fuel}
  : option (regex * nat * list ascii) :=
  match fuel with
  | O => None
  | S f =>
      match s with
      | "(" :: "?" :: ":" :: s1 =>
          match parse_alt f n s1 with
          | Some (r, n1, ")" :: s2) => Some (r, n1, s2)
          | _ => None
          end
      | "(" :: "?" :: _ => None
      | "(" :: s1 =>
          match parse_alt f (S n) s1 with
          | Some (r, n1, ")" :: s2) => Some (Grp n r, n1, s2)
          | _ => None
          end
      | "[" :: "^" :: s1 =>
          match cls_items f true s1 with
          | Some (its, s2) => Some (Cls true its, n, s2)
          | None => None
          end
      | "[" :: s1 =>
          match cls_items f true s1 with
          | Some (its, s2) => Some (Cls false its, n, s2)
          | None => None
          end
      | "\" :: c :: s1 =>
          match escape c with
          | Some i => Some (item_regex i, n, s1)
          | None => None
          end
      | "." :: s1 => Some (Any, n, s1)
      | "^" :: s1 => Some (Bol, n, s1)
      | "$" :: s1 => Some (Eol, n, s1)
      | c :: s1 =>
          match c with
          | "*" | "+" | "?" | "{" | "}" | "\" | ")" | "|" => None
          | _ => Some (Chr c, n, s1)
          end
      | [] => None
      end
  end.

(** A compiled pattern: the expression, the number of its capture groups
    and the IGNORECASE flag. *)
Record pattern : Type := mkPattern {
  expr : regex;
  ngroups : nat;
  icase : bool
}.

Definition compile (p : string) (flags : re_flag) : option pattern :=
  let s := list_ascii_of_string p in
  match parse_alt (3 * length s + 3) 1 s with
  | Some (r, n, []) =>
      Some (mkPattern r (n - 1)
              match flags with IGNORECASE => true | NOFLAG => false end)
  | _ => None
  end.

Definition start (p : pattern) (at_pos : nat) (s : list ascii) : mstate :=
  mkState at_pos s (repeat None (ngroups p)).

(** A match of [p] from the state [s0]; with [must_advance] the empty
    match is refused and the engine backtracks into the next one. *)
Definition match_at (p : pattern) (must_advance : bool) (s0 : mstate) : option mstate :=
  rmatch (icase p) (expr p)
    (fun s1 => if must_advance && (pos s1 <=? pos s0)%nat then None else Some s1) s0.

(** [Pattern.match(string)] *)
Definition pmatch (p : pattern) (subject : string) : option Match :=
  let s0 := start p 0 (list_ascii_of_string subject) in
  match match_at p false s0 with
  | Some s1 =>
      Some (mkMatch (Some (string_of_list_ascii (firstn (pos s1) (rest s0))) :: caps s1))
  | None => None
  end.

(** The scan of [Pattern.sub]: at each position the leftmost match is
    replaced; after an empty match the next one at the same position
    must be non-empty. *)
Fixpoint sub_scan (p : pattern) (repl : list ascii) (fuel at_pos : nat)
  (s : list ascii) (must_advance : bool) : list ascii :=
  match fuel with
  | O => s
  | S f =>
      match match_at p must_advance (start p at_pos s) with
      | Some s1 =>
          repl ++ sub_scan p repl f (pos s1) (rest s1) (pos s1 <=? at_pos)%nat
      | None =>
          match s with
          | [] => []
          | c :: s' => c :: sub_scan p repl f (S at_pos) s' false
          end
      end
  end.

(** [Pattern.sub(repl, string)] for a replacement without backslash. *)
Definition psub (p : pattern) (repl subject : string) : string :=
  let s := list_ascii_of_string subject in
  string_of_list_ascii
    (sub_scan p (list_ascii_of_string repl) (2 * length s + 2) 0 s false).

End Re.

(** ** An executable model of [urllib.parse] on ASCII text

    The functions follow the source of CPython 3.11's urllib/parse.py for
    [str] arguments made of ASCII characters.  Two points are outside the
    model: a percent escape of a byte above 127 (Python decodes the bytes
    as UTF-8, the model keeps the byte), and the validation of the address
    inside a bracketed host that releases from 3.11.4 on add to [urlsplit]
    (the model, as the releases before, only asks for balanced brackets). *)

Module UrlLib.

Local Open Scope char_scope.

(** [c in s] *)
Fixpoint contains (c : ascii) (s : string) : bool :=
  match s with
  | EmptyString => false
  | String x s' => Ascii.eqb x c || contains c s'
  end.

(** [s.split(c, 1)] when [c] is in [s]: the text before and after the
    first [c]. *)
Fixpoint split_once (c : ascii) (s : string) : option (string * string) :=
  match s with
  | EmptyString => None
  | String x s' =>
      if Ascii.eqb x c then Some (EmptyString, s')
      else
        match split_once c s' with
        | Some (a, b) => Some (String x a, b)
        | None => None
        end
  end.

(** [s.split(c)] *)
Fixpoint split (c : ascii) (s : string) : list string :=
  match s with
  | EmptyString => [EmptyString]
  | String x s' =>
      match split c s' with
      | h :: t => if Ascii.eqb x c then EmptyString :: h :: t else String x h :: t
      | [] => [s]
      end
  end.

(** [s.replace(a, b)] for single characters. *)
Fixpoint replace_char (a b : ascii) (s : string) : string :=
  match s with
  | EmptyString => EmptyString
  | String x s' => String (if Ascii.eqb x a then b else x) (replace_char a b s')
  end.

Fixpoint remove_char (a : ascii) (s : string) : string :=
  match s with
  | EmptyString => EmptyString
  | String x s' => if Ascii.eqb x a then remove_char a s' else String x (remove_char a s')
  end.

(** [url.lstrip(_WHATWG_C0_CONTROL_OR_SPACE)]: the characters 0 to 32. *)
Fixpoint lstrip_c0 (s : string) : string :=
  match s with
  | String x s' => if (nat_of_ascii x <=? 32)%nat then lstrip_c0 s' else s
  | EmptyString => EmptyString
  end.

Fixpoint map_string (f : ascii -> ascii) (s : string) : string :=
  match s with
  | EmptyString => EmptyString
  | String x s' => String (f x) (map_string f s')
  end.

Fixpoint forallb_string (f : ascii -> bool) (s : string) : bool :=
  match s with
  | EmptyString => true
  | String x s' => f x && forallb_string f s'
  end.

Definition is_scheme_char (c : ascii) : bool :=
  Re.is_alnum c || Ascii.eqb c "+" || Ascii.eqb c "-" || Ascii.eqb c ".".

Definition uses_netloc : list string :=
  [""; "ftp"; "http"; "gopher"; "nntp"; "telnet"; "imap"; "wais"; "file";
   "mms"; "https"; "shttp"; "snews"; "prospero"; "rtsp"; "rtspu"; "rsync";
   "svn"; "svn+ssh"; "sftp"; "nfs"; "git"; "git+ssh"; "ws"; "wss"]%string.

Definition uses_params : list string :=
  [""; "ftp"; "hdl"; "prospero"; "http"; "imap"; "https"; "shttp"; "rtsp";
   "rtspu"; "sip"; "sips"; "mms"; "sftp"; "tel"]%string.

Definition mem (s : string) (l : list string) : bool :=
  existsb (String.eqb s) l.

(** The scheme of [url] and what follows the colon, when the text before
    the first colon is a scheme. *)
Definition split_scheme (url : string) : string * string :=
  match url, split_once ":" url with
  | String x _, Some (String y before, after) =>
      if Re.is_alpha x && forallb_string is_scheme_char (String y before)
      then (map_string Re.lower (String y before), after)
      else (EmptyString, url)
  | _, _ => (EmptyString, url)
  end.

(** [_splitnetloc(url, 2)] on the text after the two slashes: the
    authority runs up to the first of [/ ? #]. *)
Fixpoint splitnetloc (s : string) : string * string :=
  match s with
  | EmptyString => (EmptyString, EmptyString)
  | String x s' =>
      if Ascii.eqb x "/" || Ascii.eqb x "?" || Ascii.eqb x "#" then (EmptyString, s)
      else let (n, r) := splitnetloc s' in (String x n, r)
  end.

(** [if url[:2] == '//': netloc, url = _splitnetloc(url, 2)] *)
Definition split_netloc (url : string) : string * string :=
  match url with
  | String "/" (String "/" after) => splitnetloc after
  | _ => (EmptyString, url)
  end.

(** [if c in url: url, rest = url.split(c, 1)] *)
Definition cut_at (c : ascii) (url : string) : string * string :=
  match split_once c url with
  | Some (u, rest) => (u, rest)
  | None => (url, EmptyString)
  end.

(** [urlsplit(url)]: scheme, netloc, path, query, fragment. *)
Definition urlsplit (url : string)
  : option (string * string * string * string * string) :=
  let url := lstrip_c0 url in
  let url := remove_char (ascii_of_nat 9) url in
  let url := remove_char (ascii_of_nat 13) url in
  let url := remove_char (ascii_of_nat 10) url in
  let (scheme, url) := split_scheme url in
  let (netloc, url) := split_netloc url in
  if xorb (contains "[" netloc) (contains "]" netloc) then None
  else
    let (url, fragment) := cut_at "#" url in
    let (url, query) := cut_at "?" url in
    Some (scheme, netloc, url, query, fragment).

(** The text from the last [/] of [s] on, and what is before it. *)
Fixpoint rsplit_slash (s : string) : option (string * string) :=
  match s with
  | EmptyString => None
  | String x s' =>
      match rsplit_slash s' with
      | Some (a, b) => Some (String x a, b)
      | None => if Ascii.eqb x "/" then Some (EmptyString, s) else None
      end
  end.

Definition splitparams (url : string) : string * string :=
  match rsplit_slash url with
  | Some (head, tail) =>
      match split_once ";" tail with
      | Some (a, b) => (head ++ a, b)%string
      | None => (url, EmptyString)
      end
  | None =>
      match split_once ";" url with
      | Some (a, b) => (a, b)
      | None => (url, EmptyString)
      end
  end.

(** The params step of [urlparse]:
    [if scheme in uses_params and ';' in url: url, params = _splitparams(url)]. *)
Definition split_params (scheme url : string) : string * string :=
  if mem scheme uses_params && contains ";" url then splitparams url
  else (url, EmptyString).

Definition urlparse (url : string) : option ParseResult :=
  match urlsplit url with
  | Some (scheme, netloc, url, query, fragment) =>
      let (url, params) := split_params scheme url in
      Some (mkParseResult scheme netloc url params query fragment)
  | None => None
  end.

Definition nonempty (s : string) : bool :=
  match s with
  | EmptyString => false
  | _ => true
  end.

Definition starts_slash (s : string) : bool :=
  match s with
  | String "/" _ => true
  | _ => false
  end.

Definition starts_2slash (s : string) : bool :=
  match s with
  | String "/" (String "/" _) => true
  | _ => false
  end.

Definition urlunsplit (scheme netloc url query fragment : string) : string :=
  let url :=
    if nonempty netloc
       || (nonempty scheme && mem scheme uses_netloc && negb (starts_2slash url))
    then
      let url := if nonempty url && negb (starts_slash url) then ("/" ++ url)%string else url in
      ("//" ++ netloc ++ url)%string
    else url in
  let url := if nonempty scheme then (scheme ++ ":" ++ url)%string else url in
  let url := if nonempty query then (url ++ "?" ++ query)%string else url in
  if nonempty fragment then (url ++ "#" ++ fragment)%string else url.

(** What [urlunparse] makes of path and params: ["%s;%s" % (url, params)]
    when there are params. *)
Definition join_params (p pa : string) : string :=
  if nonempty pa then (p ++ String ";" pa)%string else p.

Definition urlunparse (c : ParseResult) : string :=
  urlunsplit (scheme c) (netloc c) (join_params (path c) (params c))
    (query c) (fragment c).

Definition hex_value (c : ascii) : option nat :=
  if Re.is_digit c then Some (nat_of_ascii c - 48)
  else if Re.between 65 70 c then Some (nat_of_ascii c - 55)
  else if Re.between 97 102 c then Some (nat_of_ascii c - 87)
  else None.

(** [unquote(s)]: every [%XX] with two hexadecimal digits is replaced by
    the character of that code; any other [%] stays. *)
Fixpoint unquote (s : string) : string :=
  match s with
  | EmptyString => EmptyString
  | String x rest =>
      if Ascii.eqb x "%" then
        match rest with
        | String a (String b s') =>
            match hex_value a, hex_value b with
            | Some h, Some l => String (ascii_of_nat (16 * h + l)) (unquote s')
            | _, _ => String x (unquote rest)
            end
        | _ => String x (unquote rest)
        end
      else String x (unquote rest)
  end.

(** One field [name=value] of a query string, with the defaults
    [keep_blank_values=False] and [strict_parsing=False]: a field without
    [=] or with an empty value is dropped. *)
Definition parse_field (name_value : string) : list (string * string) :=
  match split_once "=" name_value with
  | Some (name, value) =>
      if nonempty value
      then [(unquote (replace_char "+" " " name), unquote (replace_char "+" " " value))]
      else []
  | None => []
  end.

(** [parse_qsl(qs)] *)
Definition parse_qsl (qs : string) : list (string * string) :=
  if nonempty qs then flat_map parse_field (split "&" qs) else [].

Definition hex_digit (n : nat) : ascii :=
  if (n <? 10)%nat then ascii_of_nat (48 + n) else ascii_of_nat (55 + n).

(** The characters [quote] never escapes. *)
Definition always_safe (c : ascii) : bool :=
  Re.is_alnum c || Ascii.eqb c "_" || Ascii.eqb c "." || Ascii.eqb c "-"
  || Ascii.eqb c "~".

(** What [quote_plus] writes for one character: a space becomes [+], a
    character that is not always safe becomes [%XX]. *)
Definition quote1 (x : ascii) : string :=
  if Ascii.eqb x " " then String "+" EmptyString
  else if always_safe x then String x EmptyString
  else
    String "%"
      (String (hex_digit (nat_of_ascii x / 16))
         (String (hex_digit (nat_of_ascii x mod 16)) EmptyString)).

(** [quote_plus(s)] *)
Fixpoint quote_plus (s : string) : string :=
  match s with
  | EmptyString => EmptyString
  | String x s' => (quote1 x ++ quote_plus s')%string
  end.

(** ['&'.join(l)] *)
Fixpoint join_amp (l : list string) : string :=
  match l with
  | [] => EmptyString
  | [x] => x
  | x :: rest => (x ++ String "&" (join_amp rest))%string
  end.

Definition encode_pair (kv : string * string) : string :=
  (quote_plus (fst kv) ++ String "=" (quote_plus (snd kv)))%string.

(** [urlencode(query)] for a list of pairs of strings. *)
Definition urlencode (query_params : list (string * string)) : string :=
  join_amp (map encode_pair query_params).

(** *** Shapes of the components [urlparse] returns *)

(** No tab, line feed or carriage return: [urlsplit] removes them. *)
Definition tidy (s : string) : bool :=
  negb (contains (ascii_of_nat 9) s) && negb (contains (ascii_of_nat 10) s)
  && negb (contains (ascii_of_nat 13) s).

(** A scheme as [urlsplit] returns it: empty, or in lower case, made of
    scheme characters and starting with a letter. *)
Definition scheme_ok (s : string) : bool :=
  match s with
  | EmptyString => true
  | String y _ =>
      Re.is_alpha y && forallb_string is_scheme_char s
      && String.eqb (map_string Re.lower s) s
  end.

(** The text is empty or starts with [/]. *)
Definition rooted (s : string) : bool :=
  match s with
  | EmptyString => true
  | String c _ => Ascii.eqb c "/"
  end.

(** The text is empty or starts with one of [/ ? #], where an authority ends. *)
Definition delimited (r : string) : bool :=
  match r with
  | EmptyString => true
  | String c _ => Ascii.eqb c "/" || Ascii.eqb c "?" || Ascii.eqb c "#"
  end.

(** An authority as [urlsplit] returns it. *)
Definition netloc_ok (n : string) : bool :=
  negb (contains "/" n) && negb (contains "?" n) && negb (contains "#" n)
  && negb (xorb (contains "[" n) (contains "]" n)) && tidy n.

(** A path, before the params are cut off, as [urlsplit] returns it. *)
Definition path_ok (u : string) : bool :=
  negb (contains "?" u) && negb (contains "#" u) && tidy u.

(** The characters of [y] are characters of [x]. *)
Definition chars_of (y x : string) : Prop :=
  forall c, contains c x = false -> contains c y = false.

(** The text [urlunsplit] writes after the authority. *)
Definition after_netloc (u q f : string) : string :=
  let uq := if nonempty q then (u ++ String "?" q)%string else u in
  if nonempty f then (uq ++ String "#" f)%string else uq.

(** A query that [urlsplit] reads back as it is: no [#], no tab or newline. *)
Definition query_ok (q : string) : bool :=
  negb (contains "#" q) && tidy q.

End UrlLib.

(** ** The routine over the executable model *)

Definition ascii_lib : PyLib := {|
  Pattern := Re.pattern;
  re_compile := Re.compile;
  Pattern_match := Re.pmatch;
  Pattern_sub := Re.psub;
  urlparse := UrlLib.urlparse;
  parse_qsl := UrlLib.parse_qsl;
  urlencode := UrlLib.urlencode;
  urlunparse := UrlLib.urlunparse;
  unquote := UrlLib.unquote
|}.

(** ** Vocabulary of the statements *)

Section Vocabulary.

Context {L : PyLib}.

(** The pattern compiles under the given flags. *)
Definition compiles (pattern : string) (flags : re_flag) : bool :=
  match re_compile pattern flags with
  | Some _ => true
  | None => false
  end.

(** The pattern compiles and matches a prefix of [s], case-insensitively. *)
Definition prefix_matches (pattern s : string) : bool :=
  match re_match pattern s IGNORECASE with
  | Ok (Some _) => true
  | _ => false
  end.

(** Every pattern of the provider compiles, under the flags it is used
    with: IGNORECASE for all but the raw rules. *)
Definition provider_compiles (p : Provider) : bool :=
  compiles (urlPattern p) IGNORECASE
  && forallb (fun x => compiles x IGNORECASE) (exceptions p)
  && forallb (fun x => compiles x IGNORECASE) (redirections p)
  && forallb (fun x => compiles x IGNORECASE) (rules p ++ referralMarketing p)
  && forallb (fun x => compiles x NOFLAG) (rawRules p).

Definition rules_compile (rules : Rules) : bool :=
  forallb (fun item => provider_compiles (snd item)) (providers_items rules).

(** What a redirection pattern extracts from [url]: the percent-decoded
    first group when the pattern matches and the group is non-empty. *)
Definition redirect_target (redir url : string) : result (option string) :=
  m <- re_match redir url IGNORECASE ;;
  match m with
  | Some mo =>
      match group mo 1 with
      | Ok g => Ok (if truthy g then Some (unquote (str_of g)) else None)
      | Raise _ => Ok None
      end
  | None => Ok None
  end.

(** The pairs no pattern of [rs] removes. *)
Definition kept_params (rs : list string) (query_params : list (string * string))
  : list (string * string) :=
  filter (fun param => negb (existsb (fun rule => prefix_matches rule (fst param)) rs))
    query_params.

(** The components of [parsed] with the query replaced. *)
Definition with_query (parsed : ParseResult) (q : string) : ParseResult :=
  mkParseResult (scheme parsed) (netloc parsed) (path parsed) (params parsed)
    q (fragment parsed).

(** Two parse results agree on everything but the query. *)
Definition same_frame (a b : ParseResult) : Prop :=
  scheme a = scheme b /\ netloc a = netloc b /\ path a = path b
  /\ params a = params b /\ fragment a = fragment b.

(** The computation does not end with an IndexError. *)
Definition no_IndexError {A : Type} (r : result A) : Prop :=
  r <> Raise IndexError.

(** The call ended with a value or with the URL parser's ValueError. *)
Definition completes_or_ValueError {A : Type} (r : result A) : Prop :=
  (exists v, r = Ok v) \/ r = Raise ValueError.

End Vocabulary.

(** ** Rules documents and URLs used as examples *)

Module Examples.

(** [{urlPattern: "^https://example\\.com", rules: ["^utm_"]}] *)
Definition example_com : Provider :=
  mkProvider "^https://example\.com" false [] [] ["^utm_"] [] [].

(** A complete provider carrying patterns that do not even compile. *)
Definition go_complete : Provider :=
  mkProvider "^https://go\.example" true ["("] ["*"] ["("] [] ["("].

Definition blocking_rules : Rules :=
  mkRules (Some [("example", example_com); ("go", go_complete); ("late", example_com)]).

(** A provider with an exception. *)
Definition with_exception : Provider :=
  mkProvider "^https://example\.com" false ["^https://example\.com/keep"] []
    ["^utm_"] [] [].

(** A redirector: the target is the value of [u]. *)
Definition go_redirect : Provider :=
  mkProvider "^https://go\.example" false []
    ["^https://go\.example/plain"; "^https://go\.example/\?u=(.*)"] [] [] [].

Definition redirect_rules : Rules :=
  mkRules (Some [("example", example_com); ("go", go_redirect)]).

(** Two redirection patterns, the second matching the target of the first. *)
Definition two_hops : Provider :=
  mkProvider "^https://go\.example" false []
    ["^https://go\.example/\?u=(.*)"; "^https://mid\.example/\?v=(.*)"] [] [] [].

(** A provider without any rule. *)
Definition no_rules : Provider :=
  mkProvider "^https://example\.com" false [] [] [] [] [].

(** A raw rule next to a query rule. *)
Definition raw_X : Provider :=
  mkProvider "^https://x" false [] [] ["utm"] [] ["X"].

Definition raw_X_rules : Rules := mkRules (Some [("x", raw_X)]).

Definition raw_ab : Provider :=
  mkProvider "^https://x" false [] [] [] [] ["ab"].

Definition raw_ab_rules : Rules := mkRules (Some [("x", raw_ab)]).

Definition example_rules : Rules := mkRules (Some [("example", example_com)]).

Definition http_rules : Rules :=
  mkRules (Some [("http", mkProvider "^http" false [] [] [] [] [])]).

(** A provider that matches only once an earlier one has cleaned the URL. *)
Definition id_only : Provider :=
  mkProvider "^https://x/\?id" false [] [] ["id"] [] [].

Definition utm_x : Provider :=
  mkProvider "^https://x" false [] [] ["utm"] [] [].

Definition two_provider_rules : Rules :=
  mkRules (Some [("id", id_only); ("utm", utm_x)]).

Definition example_url : string := "https://example.com/a?utm_source=x&id=1&UTM_medium=y&id=2".

(** [urlparse(example_url)] *)
Definition example_parsed : ParseResult :=
  mkParseResult "https" "example.com" "/a" "" "utm_source=x&id=1&UTM_medium=y&id=2" "".

(** A stand-in for the recursive call where it is not used. *)
Definition no_self : string -> result value := fun _ => Ok PFalse.

End Examples.

(** ** The cog around the routine: [on_message], [scrub_update], [update]

    The coroutines are embedded as functions of the state they read and
    write: the two values the cog keeps in its configuration, the number
    of HTTP sessions opened and not closed, and the messages sent.  What
    they take from outside (the links of a message, the order in which a
    set is listed, the download of a rules file) is an interface, as for
    the standard library.  The debug and exception logs are left out. *)

Module Cog.

(** The exceptions that end a coroutine of the cog. *)
Inductive cog_exn : Type :=
| CleanUrlError (e : exn)   (* what clean_url raised *)
| AttributeError            (* cleaned_link.lower() on False *)
| TypeError                 (* self.update() without its argument *)
| DownloadError.            (* what session.get, request.read or json.loads raised *)

Inductive attempt (A : Type) : Type :=
| Done (a : A)
| Failed (e : cog_exn).
Arguments Done {A} a.
Arguments Failed {A} e.

(** The value of [conf.rules()]: the registered default [{}], or a rules
    document. *)
Inductive stored_rules : Type :=
| EmptyDict
| Doc (r : Rules).

(** [conf_url] is the value of [conf.url()], a string or None. *)
Record World : Type := mkWorld {
  conf_rules : stored_rules;
  conf_url : option string;
  open_sessions : nat;
  sent : list string
}.

(** What [on_message] reads of a message. *)
Record Message : Type := mkMessage {
  author_bot : bool;
  content : string
}.

Class CogLib : Type := {
  (** [URL_PATTERN.findall(content)] *)
  URL_PATTERN_findall : string -> list string;
  (** [list(set(l))]: the elements of [l], each once, in some order. *)
  list_set : list string -> list string;
  (** [str.lower] *)
  lower : string -> string;
  (** The document [session.get(url)] and [json.loads] give; [None] when
      one of them raises. *)
  download : option string -> option stored_rules
}.

Definition opt_eqb (a b : option string) : bool :=
  match a, b with
  | Some x, Some y => String.eqb x y
  | None, None => true
  | _, _ => false
  end.

Definition nl : string := String (ascii_of_nat 10) EmptyString.

(** [sep.join(l)] *)
Fixpoint join (sep : string) (l : list string) : string :=
  match l with
  | [] => EmptyString
  | [x] => x
  | x :: rest => (x ++ sep ++ join sep rest)%string
  end.

(** Lines 114-115: the text of the reply. *)
Definition response (cleaned_links : list string) : string :=
  let plural := if (length cleaned_links =? 1)%nat then "is" else "ese" in
  ("I scrubbed th" ++ plural ++ " for you:" ++ nl
   ++ join nl (map (fun link => "<" ++ link ++ ">") cleaned_links))%string.

(** [ctx.send(content)] and [bot.send_filtered(channel, content=content)]. *)
Definition send (text : string) (w : World) : World :=
  mkWorld (conf_rules w) (conf_url w) (open_sessions w) (sent w ++ [text]).

Section Coroutines.

Context {L : PyLib} {C : CogLib}.

(** [update(url)]: a session is opened; the download may raise, the
    session staying open; otherwise the session is closed and the
    document stored. *)
Definition update (url : option string) (w : World) : World * option cog_exn :=
  let w1 := mkWorld (conf_rules w) (conf_url w) (S (open_sessions w)) (sent w) in
  match download url with
  | None => (w1, Some DownloadError)
  | Some rules =>
      (mkWorld rules (conf_url w1) (open_sessions w1 - 1) (sent w1), None)
  end.

(** [scrub_update(ctx, url)], [url] being None when the command has no
    argument. *)
Definition scrub_update (url : option string) (w : World) : World :=
  let confUrl := conf_url w in
  let _url := if truthy url then url else confUrl in
  match update _url w with
  | (w1, Some _) => send "Rules update failed (see log for details)" w1
  | (w1, None) =>
      let w2 :=
        if negb (opt_eqb _url confUrl)
        then mkWorld (conf_rules w1) url (open_sessions w1) (sent w1)
        else w1 in
      send "Rules updated" w2
  end.

(** Line 110: [link.lower() not in (cleaned_link.lower(),
    unquote(cleaned_link).lower())]. *)
Definition changed (link cleaned_link : string) : bool :=
  negb (String.eqb (lower link) (lower cleaned_link))
  && negb (String.eqb (lower link) (lower (unquote cleaned_link))).

(** Lines 107-111: the loop over the links. *)
Fixpoint scrub_links (links : list string) (rules : Rules) (cleaned_links : list string)
  : attempt (list string) :=
  match links with
  | [] => Done cleaned_links
  | link :: rest =>
      match clean_url link rules true with
      | Raise e => Failed (CleanUrlError e)
      | Ok PFalse => Failed AttributeError
      | Ok (PStr cleaned_link) =>
          if changed link cleaned_link
          then scrub_links rest rules (cleaned_links ++ [cleaned_link])
          else scrub_links rest rules cleaned_links
      end
  end.

(** [on_message(message)] *)
Definition on_message (message : Message) (w : World) : World * option cog_exn :=
  if author_bot message then (w, None)
  else
    match list_set (URL_PATTERN_findall (content message)) with
    | [] => (w, None)
    | links =>
        match conf_rules w with
        | EmptyDict => (w, Some TypeError)
        | Doc rules =>
            match scrub_links links rules [] with
            | Failed e => (w, Some e)
            | Done [] => (w, None)
            | Done cleaned_links => (send (response cleaned_links) w, None)
            end
        end
    end.

End Coroutines.

End Cog.

(** ** An executable model of [Pattern.findall] *)

Module ReFind.

(** What [findall] lists for a match: the whole match for a pattern
    without group, the first group (the empty string when it took no
    part) for a pattern with one group.  Patterns with more groups, for
    which Python lists tuples, are outside the model. *)
Definition found (p : Re.pattern) (s : list ascii) (at_pos : nat) (s1 : Re.mstate) : string :=
  match Re.ngroups p with
  | O => string_of_list_ascii (firstn (Re.pos s1 - at_pos) s)
  | _ =>
      match Re.caps s1 with
      | Some g :: _ => g
      | _ => EmptyString
      end
  end.

(** The scan of [Pattern.findall]: the leftmost match at each position,
    the next search starting where the match ended. *)
Fixpoint findall_scan (p : Re.pattern) (fuel at_pos : nat) (s : list ascii)
  (must_advance : bool) : list string :=
  match fuel with
  | O => []
  | S f =>
      match Re.match_at p must_advance (Re.start p at_pos s) with
      | Some s1 =>
          found p s at_pos s1
            :: findall_scan p f (Re.pos s1) (Re.rest s1) (Re.pos s1 <=? at_pos)%nat
      | None =>
          match s with
          | [] => []
          | _ :: s' => findall_scan p f (S at_pos) s' false
          end
      end
  end.

Definition findall (p : Re.pattern) (subject : string) : list string :=
  let s := list_ascii_of_string subject in
  findall_scan p (2 * length s + 2) 0 s false.

(** [URL_PATTERN = re.compile(r'(https?://\S+)')], line 20. *)
Definition URL_PATTERN : option Re.pattern :=
  Re.compile "(https?://\S+)" NOFLAG.

(** The expression [URL_PATTERN] compiles to. *)
Definition url_regex : Re.regex :=
  let not_space := Re.Cls false [Re.CSpace true] in
  Re.Grp 1
    (Re.Seq (Re.Chr "h") (Re.Seq (Re.Chr "t") (Re.Seq (Re.Chr "t") (Re.Seq (Re.Chr "p")
      (Re.Seq (Re.Alt (Re.Chr "s") Re.Eps)
        (Re.Seq (Re.Chr ":") (Re.Seq (Re.Chr "/") (Re.Seq (Re.Chr "/")
          (Re.Seq not_space (Re.Star true not_space)))))))))).

Definition url_pattern : Re.pattern := Re.mkPattern url_regex 1 false.

Definition URL_PATTERN_findall (content : string) : list string :=
  match URL_PATTERN with
  | Some p => findall p content
  | None => []
  end.

(** The two ways a link starts, and the characters it goes on with. *)
Definition http : list ascii := list_ascii_of_string "http://".
Definition https : list ascii := list_ascii_of_string "https://".
Definition not_space (x : ascii) : Prop := Re.is_space x = false.

End ReFind.

(** The rules file of the examples, served at one address. *)
Definition example_download (url : option string) : option Cog.stored_rules :=
  match url with
  | Some u =>
      if String.eqb u "https://rules.example/data.json"
      then Some (Cog.Doc Examples.example_rules)
      else None
  | None => None
  end.

Definition ascii_cog_lib : Cog.CogLib := {|
  Cog.URL_PATTERN_findall := ReFind.URL_PATTERN_findall;
  Cog.list_set := nodup string_dec;
  Cog.lower := UrlLib.map_string Re.lower;
  Cog.download := example_download
|}.

(** ** The fields of a query string

    A query string is a list of fields joined by [&].  A field is either
    [name=value], the name being the text before the first [=], or a text
    without [=]. *)

Module QueryFields.

Inductive field : Type :=
| Assigned (name value : string)
| Bare (text : string).

(** The text of a field, and of a list of fields. *)
Definition field_text (f : field) : string :=
  match f with
  | Assigned name value => (name ++ String "=" value)%string
  | Bare text => text
  end.

Definition query_text (fields : list field) : string :=
  UrlLib.join_amp (map field_text fields).

(** No [&] inside a field, no [=] in a name or in a bare text. *)
Definition well_formed (f : field) : bool :=
  match f with
  | Assigned name value =>
      negb (UrlLib.contains "=" name) && negb (UrlLib.contains "&" name)
      && negb (UrlLib.contains "&" value)
  | Bare text => negb (UrlLib.contains "=" text) && negb (UrlLib.contains "&" text)
  end.



(** The fields of a text. *)
Definition field_of (name_value : string) : field :=
  match UrlLib.split_once "=" name_value with
  | Some (name, value) => Assigned name value
  | None => Bare name_value
  end.

Definition fields_of (qs : string) : list field :=
  map field_of (UrlLib.split "&" qs).

End QueryFields.


(** Further providers and URLs used as examples. *)
Module FurtherExamples.

(** A complete provider that also lists an exception. *)
Definition complete_with_exception : Provider :=
  mkProvider "^https://example\.com" true ["^https://example\.com/keep"] []
    ["^utm_"] [] [].

Definition complete_with_exception_rules : Rules :=
  mkRules (Some [("e", complete_with_exception)]).








End FurtherExamples.

(** Rules, messages and states of the cog for the examples. *)
Module CogExamples.

Import Cog.

(** A provider whose urlPattern does not compile. *)
Definition broken : Provider :=
  mkProvider "(" false [] [] [] [] [].

Definition broken_rules : Rules :=
  mkRules (Some [("example", Examples.example_com); ("broken", broken)]).

(** A provider whose only rule does not compile. *)
Definition bad_rule : Provider :=
  mkProvider "^https://example\.com" false [] [] ["("] [] [].

(** What [__init__] registers, line 33: no rules, and the address of the
    ClearURLs rules file. *)
Definition registered_defaults : World :=
  mkWorld EmptyDict
    (Some "https://kevinroebert.gitlab.io/ClearUrls/data/data.minify.json") 0 [].

Definition with_rules (r : Rules) : World :=
  mkWorld (Doc r) (conf_url registered_defaults) 0 [].

Definition tracked_message : Message :=
  mkMessage false "look at https://example.com/a?utm_source=x&id=1 please".

Definition clean_message : Message :=
  mkMessage false "look at https://example.com/a?id=1 and https://other.example/b".

Definition blocked_message : Message :=
  mkMessage false "https://example.com/a?utm_source=x https://go.example/x".

(** The state after the reply to [tracked_message]. *)
Definition tracked_reply : World :=
  send (response ["https://example.com/a?id=1"]) (with_rules Examples.example_rules).

End CogExamples.

(** ** Properties of the routine, over any implementation of the library *)

Section Properties.

Context {L : PyLib}.

Implicit Types (self : string -> result value) (loop : bool).
Implicit Types (provider : Provider) (url current target : string).
Implicit Types (pre post : list (string * Provider)).

(** *** The exception monad *)

Lemma bind_Ok {A B : Type} (m : result A) (k : A -> result B) (b : B) :
  bind m k = Ok b -> exists a, m = Ok a /\ k a = Ok b.
Proof.
  destruct m as [a|e]; simpl; intros H; [eauto | discriminate].
Qed.

Lemma re_match_compiles pattern s :
  compiles pattern IGNORECASE = true ->
  exists m, re_match pattern s IGNORECASE = Ok m.
Proof.
  unfold compiles, re_match.
  destruct (re_compile pattern IGNORECASE); [eauto | discriminate].
Qed.

Lemma re_match_Ok_compiles pattern s m :
  re_match pattern s IGNORECASE = Ok m -> compiles pattern IGNORECASE = true.
Proof.
  unfold compiles, re_match.
  destruct (re_compile pattern IGNORECASE); [reflexivity | discriminate].
Qed.

Lemma prefix_matches_true pattern s :
  prefix_matches pattern s = true <->
  exists m, re_match pattern s IGNORECASE = Ok (Some m).
Proof.
  unfold prefix_matches; split.
  - destruct (re_match pattern s IGNORECASE) as [[m|]|]; try discriminate; eauto.
  - intros [m ->]; reflexivity.
Qed.

(** *** A call with [loop = False] does not use [self] *)

Lemma redirect_try_no_loop self self' m url :
  redirect_try self false m url = redirect_try self' false m url.
Proof.
  destruct m as [mo|]; simpl; [|reflexivity].
  destruct (group mo 1) as [g|e]; simpl; [|reflexivity].
  destruct (truthy g); reflexivity.
Qed.

Lemma for_redirections_no_loop self self' redirs url :
  for_redirections self false redirs url = for_redirections self' false redirs url.
Proof.
  revert url; induction redirs as [|redir rest IH]; intros url; simpl; [reflexivity|].
  destruct (re_match redir url IGNORECASE) as [m|e]; simpl; [|reflexivity].
  rewrite (redirect_try_no_loop self self').
  destruct (try_except_IndexError _ _) as [[u|v]|e]; simpl; auto.
Qed.

Lemma provider_step_no_loop self self' provider url :
  provider_step self false provider url = provider_step self' false provider url.
Proof.
  unfold provider_step.
  rewrite (for_redirections_no_loop self self'); reflexivity.
Qed.

Lemma for_providers_no_loop self self' ps url :
  for_providers self false ps url = for_providers self' false ps url.
Proof.
  revert url; induction ps as [|[name provider] rest IH]; intros url; simpl; [reflexivity|].
  rewrite (provider_step_no_loop self self').
  destruct (provider_step self' false provider url) as [[u|v]|e]; simpl; auto.
Qed.

(** The equation of the Python function: the recursive call is
    [clean_url] itself with [loop = False]. *)
Lemma clean_url_unfold url rules loop :
  clean_url url rules loop =
  for_providers (fun target => clean_url target rules false) loop
    (providers_items rules) url.
Proof.
  unfold clean_url at 1.
  f_equal.
Qed.

Lemma clean_url_false url rules :
  clean_url url rules false = clean_url_no_loop url rules.
Proof.
  unfold clean_url, clean_url_no_loop. apply for_providers_no_loop.
Qed.

(** *** The loop over the providers, cut in two *)

Lemma for_providers_app self loop pre post url :
  for_providers self loop (pre ++ post) url =
  r <- run_providers self loop pre url ;;
  match r with
  | Return v => Ok v
  | Continue current => for_providers self loop post current
  end.
Proof.
  revert url; induction pre as [|[name provider] rest IH]; intros url; simpl; [reflexivity|].
  destruct (provider_step self loop provider url) as [[u|v]|e]; simpl; auto.
Qed.

(** The loop reaches the provider after [pre] with the URL [current]. *)
Lemma for_providers_reach self loop pre post url current :
  run_providers self loop pre url = Ok (Continue current) ->
  for_providers self loop (pre ++ post) url = for_providers self loop post current.
Proof.
  intros H. rewrite for_providers_app, H. reflexivity.
Qed.

(** *** Complete providers and exceptions *)

Lemma provider_step_complete self loop provider url m :
  re_match (urlPattern provider) url IGNORECASE = Ok (Some m) ->
  completeProvider provider = true ->
  provider_step self loop provider url = Ok (Return PFalse).
Proof.
  intros Hm Hc. unfold provider_step. rewrite Hm, Hc. reflexivity.
Qed.

(** C2: when the loop over the providers reaches, with the current URL
    [current], a provider whose urlPattern matches a prefix of [current]
    and whose completeProvider flag is set, the call returns False (the
    URL is blocked).  Nothing is assumed of the provider's exceptions,
    redirections, rules and raw rules, nor of the providers after it: they
    are not consulted, and may even hold patterns that do not compile. *)
Theorem complete_provider_blocks rules loop pre name provider post url current m :
  providers_items rules = (pre ++ (name, provider) :: post)%list ->
  run_providers (fun target => clean_url target rules false) loop pre url
    = Ok (Continue current) ->
  re_match (urlPattern provider) current IGNORECASE = Ok (Some m) ->
  completeProvider provider = true ->
  clean_url url rules loop = Ok PFalse.
Proof.
  intros Hps Hreach Hm Hc.
  rewrite clean_url_unfold, Hps.
  rewrite (for_providers_reach _ _ _ _ _ _ Hreach).
  simpl. rewrite (provider_step_complete _ _ _ _ _ Hm Hc). reflexivity.
Qed.

Lemma any_exception_true excs url exc :
  forallb (fun x => compiles x IGNORECASE) excs = true ->
  In exc excs ->
  prefix_matches exc url = true ->
  any_exception excs url = Ok true.
Proof.
  induction excs as [|e rest IH]; simpl; intros Hc Hin Hm; [contradiction|].
  apply andb_true_iff in Hc as [Hce Hcr].
  destruct (re_match_compiles e url Hce) as [m Hre]. rewrite Hre. simpl.
  destruct m as [mo|]; simpl; [reflexivity|].
  destruct Hin as [->|Hin]; [|auto].
  unfold prefix_matches in Hm. rewrite Hre in Hm. discriminate.
Qed.

(** C9 (amended): a provider whose urlPattern matches a prefix of the
    current URL, which is not a complete provider, and one of whose
    exceptions also matches a prefix of the URL, is skipped: its iteration
    ends with the URL it started with, and the loop goes on with the next
    provider on that same URL.  The exceptions are assumed to compile.  A
    complete provider blocks the URL before its exceptions are looked at. *)
Theorem exception_skips_provider self loop name provider rest url m exc :
  re_match (urlPattern provider) url IGNORECASE = Ok (Some m) ->
  completeProvider provider = false ->
  forallb (fun x => compiles x IGNORECASE) (exceptions provider) = true ->
  In exc (exceptions provider) ->
  prefix_matches exc url = true ->
  provider_step self loop provider url = Ok (Continue url)
  /\ for_providers self loop ((name, provider) :: rest) url
     = for_providers self loop rest url.
Proof.
  intros Hm Hc Hcomp Hin Hexc.
  assert (Hstep : provider_step self loop provider url = Ok (Continue url)).
  { unfold provider_step. rewrite Hm, Hc. simpl.
    rewrite (any_exception_true _ _ _ Hcomp Hin Hexc). reflexivity. }
  split; [exact Hstep|].
  simpl. rewrite Hstep. reflexivity.
Qed.

(** *** IndexError never leaves the routine *)

Lemma no_IndexError_Ok {A : Type} (a : A) : no_IndexError (Ok a).
Proof. discriminate. Qed.

Lemma no_IndexError_bind {A B : Type} (m : result A) (k : A -> result B) :
  no_IndexError m -> (forall a, no_IndexError (k a)) -> no_IndexError (bind m k).
Proof.
  unfold no_IndexError. destruct m as [a|e]; simpl; intros Hm Hk.
  - apply Hk.
  - intros [= ->]. apply Hm. reflexivity.
Qed.

Lemma no_IndexError_re_match pattern s flags :
  no_IndexError (re_match pattern s flags).
Proof.
  unfold re_match. destruct (re_compile pattern flags); discriminate.
Qed.

Lemma no_IndexError_re_sub pattern repl s :
  no_IndexError (re_sub pattern repl s).
Proof.
  unfold re_sub. destruct (re_compile pattern NOFLAG); discriminate.
Qed.

Lemma no_IndexError_try {A : Type} (body handler : result A) :
  no_IndexError handler -> no_IndexError (try_except_IndexError body handler).
Proof.
  unfold no_IndexError. destruct body as [a|[]]; simpl; auto; discriminate.
Qed.

Create HintDb noindex.
Local Hint Resolve no_IndexError_Ok no_IndexError_re_match no_IndexError_re_sub
  no_IndexError_try : noindex.

Lemma no_IndexError_any_exception excs url :
  no_IndexError (any_exception excs url).
Proof.
  induction excs as [|e rest IH]; simpl; auto with noindex.
  apply no_IndexError_bind; auto with noindex.
  intros m. destruct (is_match m); auto with noindex.
Qed.

Lemma no_IndexError_keep_params rule ps :
  no_IndexError (keep_params rule ps).
Proof.
  induction ps as [|p rest IH]; simpl; auto with noindex.
  apply no_IndexError_bind; auto with noindex.
  intros m. apply no_IndexError_bind; auto with noindex.
Qed.

Lemma no_IndexError_for_rules rs ps :
  no_IndexError (for_rules rs ps).
Proof.
  revert ps; induction rs as [|r rest IH]; intros ps; simpl; auto with noindex.
  apply no_IndexError_bind; auto using no_IndexError_keep_params.
Qed.

Lemma no_IndexError_for_raw_rules rs url :
  no_IndexError (for_raw_rules rs url).
Proof.
  revert url; induction rs as [|r rest IH]; intros url; simpl; auto with noindex.
  apply no_IndexError_bind; auto with noindex.
Qed.

Lemma no_IndexError_for_redirections self loop redirs url :
  no_IndexError (for_redirections self loop redirs url).
Proof.
  revert url; induction redirs as [|r rest IH]; intros url; simpl; auto with noindex.
  apply no_IndexError_bind; auto with noindex.
  intros m. apply no_IndexError_bind; auto with noindex.
  intros [u|v]; auto with noindex.
Qed.

Lemma no_IndexError_after_redirections provider url :
  no_IndexError (after_redirections provider url).
Proof.
  unfold after_redirections, clean_query, urlparse_exn.
  destruct (urlparse url); simpl; [|discriminate].
  repeat (apply no_IndexError_bind; [|intros ?]);
    auto using no_IndexError_for_rules, no_IndexError_for_raw_rules with noindex.
Qed.

Lemma no_IndexError_provider_step self loop provider url :
  no_IndexError (provider_step self loop provider url).
Proof.
  unfold provider_step.
  apply no_IndexError_bind; auto with noindex. intros m.
  destruct (negb (is_match m)); auto with noindex.
  destruct (completeProvider provider); auto with noindex.
  apply no_IndexError_bind; auto using no_IndexError_any_exception. intros [|]; auto with noindex.
  apply no_IndexError_bind; auto using no_IndexError_for_redirections.
  intros [u|v]; auto using no_IndexError_after_redirections with noindex.
Qed.

Lemma no_IndexError_for_providers self loop ps url :
  no_IndexError (for_providers self loop ps url).
Proof.
  revert url; induction ps as [|[name p] rest IH]; intros url; simpl; auto with noindex.
  apply no_IndexError_bind; auto using no_IndexError_provider_step.
  intros [u|v]; auto with noindex.
Qed.

Lemma no_IndexError_clean_url url rules loop :
  no_IndexError (clean_url url rules loop).
Proof. apply no_IndexError_for_providers. Qed.

(** *** The loop over the redirection patterns *)

Lemma redirect_target_fires redir url mo g :
  re_match redir url IGNORECASE = Ok (Some mo) ->
  group mo 1 = Ok (Some g) ->
  g <> "" ->
  redirect_target redir url = Ok (Some (unquote g)).
Proof.
  intros Hm Hg Hne. unfold redirect_target. rewrite Hm. simpl. rewrite Hg.
  destruct g; [congruence | reflexivity].
Qed.

(** A pattern that extracts no target leaves the loop as it is: the
    pattern does not match, or its first group is missing (the IndexError
    is caught), took no part in the match, or is empty. *)
Lemma for_redirections_pass self loop redir rest url :
  redirect_target redir url = Ok None ->
  for_redirections self loop (redir :: rest) url
  = for_redirections self loop rest url.
Proof.
  unfold redirect_target. simpl.
  destruct (re_match redir url IGNORECASE) as [[mo|]|e]; simpl;
    [ | reflexivity | discriminate].
  unfold group. destruct (nth_error (groups mo) 1) as [g|]; simpl; [|reflexivity].
  destruct (truthy g); [discriminate | reflexivity].
Qed.

Lemma for_redirections_pass_all self loop before rest url :
  Forall (fun redir => redirect_target redir url = Ok None) before ->
  for_redirections self loop (before ++ rest) url
  = for_redirections self loop rest url.
Proof.
  induction 1 as [|redir before Hr _ IH]; [reflexivity|].
  rewrite <- app_comm_cons, for_redirections_pass; assumption.
Qed.

Lemma for_redirections_recurse self redir rest url target :
  redirect_target redir url = Ok (Some target) ->
  no_IndexError (self target) ->
  for_redirections self true (redir :: rest) url
  = v <- self target ;; Ok (Return v).
Proof.
  unfold redirect_target. simpl.
  destruct (re_match redir url IGNORECASE) as [[mo|]|e]; simpl; try discriminate.
  unfold group. destruct (nth_error (groups mo) 1) as [g|]; simpl; [|discriminate].
  destruct (truthy g); [|discriminate].
  intros [= <-] Hself.
  destruct (self (unquote (str_of g))) as [v|[]]; simpl; try reflexivity.
  elim Hself; reflexivity.
Qed.

Lemma for_redirections_replace self redir rest url target :
  redirect_target redir url = Ok (Some target) ->
  for_redirections self false (redir :: rest) url
  = for_redirections self false rest target.
Proof.
  unfold redirect_target. simpl.
  destruct (re_match redir url IGNORECASE) as [[mo|]|e]; simpl; try discriminate.
  unfold group. destruct (nth_error (groups mo) 1) as [g|]; simpl; [|discriminate].
  destruct (truthy g); [|discriminate].
  intros [= <-]. reflexivity.
Qed.

(** With [loop = False] the loop over the redirections never returns
    from the function. *)
Lemma for_redirections_false_continues self redirs url v :
  for_redirections self false redirs url <> Ok (Return v).
Proof.
  revert url; induction redirs as [|r rest IH]; intros url; simpl; [discriminate|].
  destruct (re_match r url IGNORECASE) as [m|e]; simpl; [|discriminate].
  destruct m as [mo|]; simpl; [|apply IH].
  unfold group. destruct (nth_error (groups mo) 1) as [g|]; simpl; [|apply IH].
  destruct (truthy g); simpl; apply IH.
Qed.

(** C1 (amended): when the call with [loop = True] reaches a provider
    (not complete, no exception matching) with the current URL
    [current], the first redirection pattern that matches a prefix of
    [current] with a non-empty first group [g] makes the call return
    exactly what [clean_url(unquote(g), rules, False)] returns.  The
    redirection patterns after it, the provider's rules and raw rules and
    the providers after it are arbitrary: they play no part. *)
Theorem redirect_returns_inner_result
  rules pre name provider post url current m before redir after mo g :
  providers_items rules = (pre ++ (name, provider) :: post)%list ->
  run_providers (fun t => clean_url t rules false) true pre url
    = Ok (Continue current) ->
  re_match (urlPattern provider) current IGNORECASE = Ok (Some m) ->
  completeProvider provider = false ->
  any_exception (exceptions provider) current = Ok false ->
  redirections provider = (before ++ redir :: after)%list ->
  Forall (fun r => redirect_target r current = Ok None) before ->
  re_match redir current IGNORECASE = Ok (Some mo) ->
  group mo 1 = Ok (Some g) ->
  g <> "" ->
  clean_url url rules true = clean_url (unquote g) rules false.
Proof.
  intros Hps Hreach Hm Hc Hexc Hrs Hbefore Hmo Hg Hne.
  rewrite (clean_url_unfold url), Hps.
  rewrite (for_providers_reach _ _ _ _ _ _ Hreach).
  simpl. unfold provider_step. rewrite Hm, Hc. simpl. rewrite Hexc. simpl.
  rewrite Hrs, (for_redirections_pass_all _ _ _ _ _ Hbefore).
  rewrite (for_redirections_recurse (fun t => clean_url t rules false) _ _ _ _
             (redirect_target_fires _ _ _ _ Hmo Hg Hne)
             (no_IndexError_clean_url _ _ _)).
  destruct (clean_url (unquote g) rules false) as [v|e]; reflexivity.
Qed.

(** C7 (amended): with [loop = False], a redirection pattern that
    matches a prefix of the URL with a non-empty first group [g] does not
    recurse ([self] plays no part): the current URL becomes [unquote(g)]
    and the loop goes on with the provider's remaining redirection
    patterns, tried on the new value; the query rules and the raw rules
    then run on the URL that loop ends with. *)
Theorem redirect_inside_hop_replaces_url
  self provider url m before redir after mo g :
  re_match (urlPattern provider) url IGNORECASE = Ok (Some m) ->
  completeProvider provider = false ->
  any_exception (exceptions provider) url = Ok false ->
  redirections provider = (before ++ redir :: after)%list ->
  Forall (fun r => redirect_target r url = Ok None) before ->
  re_match redir url IGNORECASE = Ok (Some mo) ->
  group mo 1 = Ok (Some g) ->
  g <> "" ->
  for_redirections self false (redirections provider) url
    = for_redirections self false after (unquote g)
  /\ (forall final,
        for_redirections self false after (unquote g) = Ok (Continue final) ->
        provider_step self false provider url = after_redirections provider final).
Proof.
  intros Hm Hc Hexc Hrs Hbefore Hmo Hg Hne.
  assert (Hloop : for_redirections self false (redirections provider) url
                  = for_redirections self false after (unquote g)).
  { rewrite Hrs, (for_redirections_pass_all _ _ _ _ _ Hbefore).
    apply for_redirections_replace, (redirect_target_fires _ _ _ _ Hmo Hg Hne). }
  split; [exact Hloop|].
  intros final Hfinal.
  unfold provider_step. rewrite Hm, Hc. simpl. rewrite Hexc. simpl.
  rewrite Hloop, Hfinal. reflexivity.
Qed.

(** *** The query rules *)

Lemma keep_params_Ok rule ps kept :
  keep_params rule ps = Ok kept ->
  kept = filter (fun param => negb (prefix_matches rule (fst param))) ps.
Proof.
  revert kept; induction ps as [|p rest IH]; simpl; intros kept H.
  - congruence.
  - apply bind_Ok in H as [m [Hm H]].
    apply bind_Ok in H as [kept' [Hk H]].
    injection H as <-.
    unfold prefix_matches. rewrite Hm, (IH _ Hk).
    destruct m; reflexivity.
Qed.

Lemma keep_params_compiles rule ps :
  compiles rule IGNORECASE = true ->
  exists kept, keep_params rule ps = Ok kept.
Proof.
  intros Hc. induction ps as [|p rest [kept IH]]; simpl; [eauto|].
  destruct (re_match_compiles rule (fst p) Hc) as [m ->]. simpl.
  rewrite IH. simpl. eauto.
Qed.

Lemma kept_params_cons rule rs ps :
  kept_params (rule :: rs) ps
  = kept_params rs (filter (fun param => negb (prefix_matches rule (fst param))) ps).
Proof.
  unfold kept_params. induction ps as [|p rest IH]; simpl in *; [reflexivity|].
  destruct (prefix_matches rule (fst p)); simpl; rewrite IH; reflexivity.
Qed.

Lemma for_rules_Ok rs ps kept :
  for_rules rs ps = Ok kept -> kept = kept_params rs ps.
Proof.
  revert ps; induction rs as [|rule rest IH]; simpl; intros ps H.
  - unfold kept_params. simpl. injection H as <-.
    induction ps as [|p t IHt]; simpl; congruence.
  - apply bind_Ok in H as [mid [Hmid H]].
    rewrite kept_params_cons, <- (keep_params_Ok _ _ _ Hmid). auto.
Qed.

Lemma for_rules_compiles rs ps :
  forallb (fun x => compiles x IGNORECASE) rs = true ->
  for_rules rs ps = Ok (kept_params rs ps).
Proof.
  revert ps; induction rs as [|rule rest IH]; simpl; intros ps Hc.
  - f_equal. apply (for_rules_Ok [] ps). reflexivity.
  - apply andb_true_iff in Hc as [Hr Hrest].
    destruct (keep_params_compiles rule ps Hr) as [mid Hmid].
    rewrite Hmid. simpl.
    rewrite kept_params_cons, <- (keep_params_Ok _ _ _ Hmid). auto.
Qed.

Lemma kept_params_In rs ps param :
  In param (kept_params rs ps) <->
  In param ps /\ forall rule, In rule rs -> prefix_matches rule (fst param) = false.
Proof.
  unfold kept_params. rewrite filter_In, negb_true_iff.
  split; intros [Hin H]; split; auto.
  - intros rule Hr. destruct (prefix_matches rule (fst param)) eqn:E; auto.
    rewrite <- H. symmetry. apply existsb_exists. eauto.
  - destruct (existsb _ rs) eqn:E; auto.
    apply existsb_exists in E as [rule [Hr Hm]]. rewrite (H rule Hr) in Hm. discriminate.
Qed.

Lemma clean_query_Ok provider url parsed kept :
  urlparse url = Some parsed ->
  for_rules (rules provider ++ referralMarketing provider)
    (parse_qsl (query parsed)) = Ok kept ->
  clean_query provider url = Ok (urlunparse (with_query parsed (urlencode kept))).
Proof.
  intros Hp Hk. unfold clean_query, urlparse_exn. rewrite Hp. simpl.
  rewrite Hk. reflexivity.
Qed.


Lemma for_rules_app rs1 rs2 ps kept :
  for_rules (rs1 ++ rs2) ps = Ok kept ->
  exists mid, for_rules rs1 ps = Ok mid /\ for_rules rs2 mid = Ok kept.
Proof.
  revert ps; induction rs1 as [|rule rest IH]; simpl; intros ps H; [eauto|].
  apply bind_Ok in H as [l [Hl H]]. rewrite Hl. simpl. auto.
Qed.

(** C8 (amended): within the query-cleaning step of a provider, removal
    is cumulative.  A pair the first patterns have removed is not brought
    back by the patterns after them, and the query the provider encodes
    into the rebuilt URL holds no pair whose key is matched by one of the
    provider's rules or referralMarketing patterns. *)
Theorem removed_pairs_stay_out_of_query provider url parsed kept :
  urlparse url = Some parsed ->
  for_rules (rules provider ++ referralMarketing provider)
    (parse_qsl (query parsed)) = Ok kept ->
  clean_query provider url = Ok (urlunparse (with_query parsed (urlencode kept)))
  /\ (forall rule key value,
        In rule (rules provider ++ referralMarketing provider) ->
        prefix_matches rule key = true ->
        ~ In (key, value) kept)
  /\ (exists mid,
        for_rules (rules provider) (parse_qsl (query parsed)) = Ok mid
        /\ for_rules (referralMarketing provider) mid = Ok kept
        /\ forall param, In param kept -> In param mid).
Proof.
  intros Hp Hk. split; [apply clean_query_Ok; assumption|]. split.
  - intros rule key value Hr Hm Hin.
    rewrite (for_rules_Ok _ _ _ Hk) in Hin.
    apply kept_params_In in Hin as [_ Hnone].
    specialize (Hnone rule Hr). simpl in Hnone. congruence.
  - destruct (for_rules_app _ _ _ _ Hk) as [mid [H1 H2]].
    exists mid. repeat split; try assumption.
    intros param Hin. rewrite (for_rules_Ok _ _ _ H2) in Hin.
    apply kept_params_In in Hin. tauto.
Qed.

Lemma clean_query_inv provider url parsed url1 :
  urlparse url = Some parsed ->
  clean_query provider url = Ok url1 ->
  exists kept,
    for_rules (rules provider ++ referralMarketing provider)
      (parse_qsl (query parsed)) = Ok kept
    /\ url1 = urlunparse (with_query parsed (urlencode kept)).
Proof.
  intros Hp H. unfold clean_query, urlparse_exn in H. rewrite Hp in H. simpl in H.
  apply bind_Ok in H as [kept [Hk H]]. injection H as <-.
  exists kept. split; [exact Hk | reflexivity].
Qed.

(** For any implementation of the library: the URL the query-filtering
    step rebuilds is [urlunparse] of the scheme, netloc, path, params and
    fragment that [urlparse] gave for the URL before filtering; only the
    query handed to [urlunparse] differs, being the encoding of the pairs
    kept. *)
Lemma rebuilt_from_parsed_components provider url parsed url1 :
  urlparse url = Some parsed ->
  clean_query provider url = Ok url1 ->
  exists kept rebuilt,
    for_rules (rules provider ++ referralMarketing provider)
      (parse_qsl (query parsed)) = Ok kept
    /\ url1 = urlunparse rebuilt
    /\ same_frame rebuilt parsed
    /\ query rebuilt = urlencode kept
    /\ (urlparse (urlunparse rebuilt) = Some rebuilt ->
        exists parsed1, urlparse url1 = Some parsed1 /\ same_frame parsed1 parsed).
Proof.
  intros Hp H. destruct (clean_query_inv _ _ _ _ Hp H) as [kept [Hk ->]].
  exists kept, (with_query parsed (urlencode kept)).
  assert (Hframe : same_frame (with_query parsed (urlencode kept)) parsed)
    by (repeat split).
  repeat split; try assumption; try reflexivity.
  intros Hrt. eauto.
Qed.

(** C6 (amended): a provider whose urlPattern matches the current URL,
    which is not complete and whose pattern lists are all empty, removes
    nothing, but its pipeline still parses the URL and rebuilds it: the
    current URL after it is [urlunparse] of the parsed components with the
    query re-encoded from its pairs.  It is the URL before whenever that
    re-encoding reproduces the URL. *)
Theorem empty_provider_reencodes self loop provider url m parsed :
  re_match (urlPattern provider) url IGNORECASE = Ok (Some m) ->
  completeProvider provider = false ->
  exceptions provider = [] ->
  redirections provider = [] ->
  rules provider = [] ->
  referralMarketing provider = [] ->
  rawRules provider = [] ->
  urlparse url = Some parsed ->
  let rebuilt := urlunparse (with_query parsed (urlencode (parse_qsl (query parsed)))) in
  provider_step self loop provider url = Ok (Continue rebuilt)
  /\ (rebuilt = url -> provider_step self loop provider url = Ok (Continue url)).
Proof.
  intros Hm Hc He Hr Hru Hrm Hraw Hp rebuilt.
  assert (Hstep : provider_step self loop provider url = Ok (Continue rebuilt)).
  { unfold provider_step, after_redirections, clean_query, urlparse_exn.
    rewrite Hm, Hc, He, Hr, Hru, Hrm, Hraw. simpl. rewrite Hp. reflexivity. }
  split; [exact Hstep|]. intros <-. exact Hstep.
Qed.

(** *** Which exceptions can leave the routine *)

Lemma cov_Ok {A : Type} (a : A) : completes_or_ValueError (Ok a).
Proof. left; eauto. Qed.

Lemma cov_bind {A B : Type} (m : result A) (k : A -> result B) :
  completes_or_ValueError m ->
  (forall a, completes_or_ValueError (k a)) ->
  completes_or_ValueError (bind m k).
Proof.
  intros [[a ->]| ->] Hk; simpl; [apply Hk | right; reflexivity].
Qed.

Lemma cov_re_match pattern s :
  compiles pattern IGNORECASE = true ->
  completes_or_ValueError (re_match pattern s IGNORECASE).
Proof.
  intros Hc. destruct (re_match_compiles pattern s Hc) as [m ->]. apply cov_Ok.
Qed.

Lemma cov_re_sub pattern repl s :
  compiles pattern NOFLAG = true ->
  completes_or_ValueError (re_sub pattern repl s).
Proof.
  unfold compiles, re_sub.
  destruct (re_compile pattern NOFLAG); [intros _; apply cov_Ok | discriminate].
Qed.

Lemma cov_any_exception excs url :
  forallb (fun x => compiles x IGNORECASE) excs = true ->
  completes_or_ValueError (any_exception excs url).
Proof.
  induction excs as [|e rest IH]; simpl; intros Hc; [apply cov_Ok|].
  apply andb_true_iff in Hc as [He Hrest].
  apply cov_bind; [apply cov_re_match, He|].
  intros m. destruct (is_match m); [apply cov_Ok | auto].
Qed.

Lemma cov_for_raw_rules rs url :
  forallb (fun x => compiles x NOFLAG) rs = true ->
  completes_or_ValueError (for_raw_rules rs url).
Proof.
  revert url; induction rs as [|r rest IH]; simpl; intros url Hc; [apply cov_Ok|].
  apply andb_true_iff in Hc as [Hr Hrest].
  apply cov_bind; [apply cov_re_sub, Hr | auto].
Qed.

Lemma cov_redirect_try self loop m url :
  (forall target, completes_or_ValueError (self target)) ->
  completes_or_ValueError
    (try_except_IndexError (redirect_try self loop m url) (Ok (Continue url))).
Proof.
  intros Hself. destruct m as [mo|]; simpl; [|apply cov_Ok].
  unfold group. destruct (nth_error (groups mo) 1) as [g|]; simpl; [|apply cov_Ok].
  destruct (truthy g); [|apply cov_Ok].
  destruct loop; [|apply cov_Ok].
  destruct (Hself (unquote (str_of g))) as [[v ->]| ->]; simpl;
    [apply cov_Ok | right; reflexivity].
Qed.

Lemma cov_for_redirections self loop redirs url :
  (forall target, completes_or_ValueError (self target)) ->
  forallb (fun x => compiles x IGNORECASE) redirs = true ->
  completes_or_ValueError (for_redirections self loop redirs url).
Proof.
  intros Hself. revert url.
  induction redirs as [|r rest IH]; simpl; intros url Hc; [apply cov_Ok|].
  apply andb_true_iff in Hc as [Hr Hrest].
  apply cov_bind; [apply cov_re_match, Hr|]. intros m.
  apply cov_bind; [apply cov_redirect_try, Hself|].
  intros [u|v]; [auto | apply cov_Ok].
Qed.

Lemma cov_after_redirections provider url :
  provider_compiles provider = true ->
  completes_or_ValueError (after_redirections provider url).
Proof.
  unfold provider_compiles. intros Hc.
  repeat (apply andb_true_iff in Hc as [Hc ?]).
  unfold after_redirections, clean_query, urlparse_exn.
  destruct (urlparse url) as [parsed|]; simpl; [|right; reflexivity].
  rewrite for_rules_compiles by assumption. simpl.
  apply cov_bind; [apply cov_for_raw_rules; assumption|].
  intros u. apply cov_Ok.
Qed.

Lemma cov_provider_step self loop provider url :
  (forall target, completes_or_ValueError (self target)) ->
  provider_compiles provider = true ->
  completes_or_ValueError (provider_step self loop provider url).
Proof.
  intros Hself Hc. pose proof (cov_after_redirections provider) as Hafter.
  unfold provider_compiles in Hc.
  repeat (apply andb_true_iff in Hc as [Hc ?]).
  unfold provider_step.
  apply cov_bind; [apply cov_re_match; assumption|]. intros m.
  destruct (negb (is_match m)); [apply cov_Ok|].
  destruct (completeProvider provider); [apply cov_Ok|].
  apply cov_bind; [apply cov_any_exception; assumption|].
  intros [|]; [apply cov_Ok|].
  apply cov_bind; [apply cov_for_redirections; assumption|].
  intros [u|v]; [|apply cov_Ok].
  apply Hafter. unfold provider_compiles.
  repeat (apply andb_true_iff; split); assumption.
Qed.

Lemma cov_for_providers self loop ps url :
  (forall target, completes_or_ValueError (self target)) ->
  forallb (fun item => provider_compiles (snd item)) ps = true ->
  completes_or_ValueError (for_providers self loop ps url).
Proof.
  intros Hself. revert url.
  induction ps as [|[name provider] rest IH]; simpl; intros url Hc; [apply cov_Ok|].
  apply andb_true_iff in Hc as [Hp Hrest].
  apply cov_bind; [apply cov_provider_step; assumption|].
  intros [u|v]; [auto | apply cov_Ok].
Qed.

(** C5 (amended): for every URL and every rules document whose patterns
    all compile, a call that is not ended by the ValueError of [urlparse]
    (raised on a current URL the parser rejects) returns a value, False or
    a string: no other exception leaves it.  In particular a redirection
    pattern that matches while the pattern has no first group (IndexError)
    is skipped, and the loop goes on with the next pattern on the same
    URL.

    The statement is one about text the codecs accept and about a
    well-typed rules document, the scope of the embedding: the URL and the
    rules are strings of the model, on which [urlencode] is total.  On a
    Python [str] that holds a lone surrogate, [urlencode] (line 88, outside
    any [try]) raises UnicodeEncodeError, which leaves the call as the
    ValueError does; no such string arises from a URL without one, since
    [unquote] and [parse_qsl] decode with replacement. *)
Theorem clean_url_completes url ruleset loop :
  rules_compile ruleset = true ->
  clean_url url ruleset loop <> Raise ValueError ->
  (exists v, clean_url url ruleset loop = Ok v)
  /\ (forall self redir rest current mo,
        re_match redir current IGNORECASE = Ok (Some mo) ->
        group mo 1 = Raise IndexError ->
        for_redirections self loop (redir :: rest) current
        = for_redirections self loop rest current).
Proof.
  intros Hc Hparse. split.
  - assert (H : completes_or_ValueError (clean_url url ruleset loop)).
    { unfold clean_url. apply cov_for_providers; [|exact Hc].
      intros target. unfold clean_url_no_loop.
      apply cov_for_providers; [|exact Hc].
      intros _. apply cov_Ok. }
    destruct H as [H|H]; [exact H | contradiction].
  - intros self redir rest current mo Hm Hg.
    apply for_redirections_pass. unfold redirect_target.
    rewrite Hm. simpl. rewrite Hg. reflexivity.
Qed.

(** *** A second pass of the query rules *)

Lemma keep_params_survivors rule ps kept :
  keep_params rule ps = Ok kept ->
  forall param, In param kept -> re_match rule (fst param) IGNORECASE = Ok None.
Proof.
  revert kept; induction ps as [|p rest IH]; simpl; intros kept H param Hin.
  - injection H as <-. contradiction.
  - apply bind_Ok in H as [m [Hm H]].
    apply bind_Ok in H as [kept' [Hk H]].
    injection H as <-.
    destruct m as [mo|]; simpl in Hin.
    + eauto.
    + destruct Hin as [<-|Hin]; eauto.
Qed.

Lemma keep_params_nothing_to_remove rule ps :
  (forall param, In param ps -> re_match rule (fst param) IGNORECASE = Ok None) ->
  keep_params rule ps = Ok ps.
Proof.
  induction ps as [|p rest IH]; simpl; intros H; [reflexivity|].
  rewrite (H p (or_introl eq_refl)). simpl.
  rewrite IH by auto. reflexivity.
Qed.

Lemma for_rules_nothing_to_remove rs ps :
  (forall rule param, In rule rs -> In param ps ->
      re_match rule (fst param) IGNORECASE = Ok None) ->
  for_rules rs ps = Ok ps.
Proof.
  induction rs as [|rule rest IH]; simpl; intros H; [reflexivity|].
  rewrite keep_params_nothing_to_remove by auto. simpl. auto.
Qed.

Lemma for_rules_survivors rs ps kept :
  for_rules rs ps = Ok kept ->
  forall rule param, In rule rs -> In param kept ->
    re_match rule (fst param) IGNORECASE = Ok None.
Proof.
  revert ps; induction rs as [|r rest IH]; simpl; intros ps H rule param Hr Hin;
    [contradiction|].
  apply bind_Ok in H as [mid [Hmid H]].
  destruct Hr as [<-|Hr]; [|eauto].
  apply (keep_params_survivors _ _ _ Hmid).
  rewrite (for_rules_Ok _ _ _ H) in Hin.
  apply kept_params_In in Hin. tauto.
Qed.

(** The pairs the rules have kept are kept by a second pass. *)
Lemma for_rules_idempotent rs ps kept :
  for_rules rs ps = Ok kept -> for_rules rs kept = Ok kept.
Proof.
  intros H. apply for_rules_nothing_to_remove.
  intros rule param. apply (for_rules_survivors _ _ _ H).
Qed.

Lemma any_exception_again excs url url' :
  any_exception excs url = Ok false ->
  exists b, any_exception excs url' = Ok b.
Proof.
  induction excs as [|e rest IH]; simpl; intros H; [eauto|].
  apply bind_Ok in H as [m [Hm H]].
  destruct (re_match_compiles e url' (re_match_Ok_compiles _ _ _ Hm)) as [m' ->].
  simpl. destruct (is_match m); [discriminate|].
  destruct (is_match m'); eauto.
Qed.

Lemma with_query_with_query parsed q q' :
  with_query (with_query parsed q) q' = with_query parsed q'.
Proof. reflexivity. Qed.

Lemma query_with_query parsed q : query (with_query parsed q) = q.
Proof. reflexivity. Qed.

(** A second pass over the result of a single provider without
    redirections and raw rules, when the library gives back what it was
    handed. *)
Lemma second_pass_same ruleset name provider url c :
  providers ruleset = Some [(name, provider)] ->
  redirections provider = [] ->
  rawRules provider = [] ->
  clean_url url ruleset true = Ok (PStr c) ->
  (forall parsed kept,
      urlparse url = Some parsed ->
      for_rules (rules provider ++ referralMarketing provider)
        (parse_qsl (query parsed)) = Ok kept ->
      urlparse (urlunparse (with_query parsed (urlencode kept)))
        = Some (with_query parsed (urlencode kept))
      /\ parse_qsl (urlencode kept) = kept) ->
  clean_url c ruleset true = Ok (PStr c).
Proof.
  intros Hps Hr Hraw Hrun Hlib.
  unfold clean_url, providers_items in *. rewrite Hps in *.
  set (self := fun target : string => _) in *. clearbody self.
  simpl in *. unfold provider_step in *.
  destruct (re_match (urlPattern provider) url IGNORECASE) as [m|e] eqn:Hm;
    simpl in Hrun; [|discriminate].
  destruct (re_match_compiles (urlPattern provider) c
              (re_match_Ok_compiles _ _ _ Hm)) as [m' Hm'].
  rewrite Hm'. simpl.
  destruct m as [mo|]; simpl in Hrun.
  2:{ injection Hrun as <-. rewrite Hm in Hm'. injection Hm' as <-. reflexivity. }
  destruct m' as [mo'|]; simpl; [|reflexivity].
  destruct (completeProvider provider); [discriminate|].
  destruct (any_exception (exceptions provider) url) as [b|e] eqn:Hexc;
    simpl in Hrun; [|discriminate].
  destruct b.
  { injection Hrun as <-. rewrite Hexc. reflexivity. }
  destruct (any_exception_again _ _ c Hexc) as [b' Hc].
  rewrite Hc. simpl. destruct b'; [reflexivity|].
  rewrite Hr in *. simpl in *.
  unfold after_redirections, clean_query, urlparse_exn in *.
  rewrite Hraw in *.
  destruct (urlparse url) as [parsed|] eqn:Hp; simpl in Hrun; [|discriminate].
  destruct (for_rules _ (parse_qsl (query parsed))) as [kept|e] eqn:Hk;
    simpl in Hrun; [|discriminate].
  injection Hrun as <-.
  destruct (Hlib parsed kept eq_refl Hk) as [Hparse Hqsl].
  unfold with_query in Hparse. rewrite Hparse. simpl.
  rewrite Hqsl, (for_rules_idempotent _ _ _ Hk). reflexivity.
Qed.

(** C4 (amended): for a rules document with a single provider that has
    neither redirections nor raw rules, if the call on [url] returns the
    string [c], and the URL library gives back what the routine handed to
    it ([urlparse] of the rebuilt URL returns the components it was built
    from, [parse_qsl] of the encoded query returns the pairs encoded),
    then the call on [c] returns [c] again.  A call that returned False
    returns False when made again, the routine being a function of its
    arguments. *)
Theorem single_provider_second_pass ruleset name provider url c :
  providers ruleset = Some [(name, provider)] ->
  redirections provider = [] ->
  rawRules provider = [] ->
  clean_url url ruleset true = Ok (PStr c) ->
  (forall parsed kept,
      urlparse url = Some parsed ->
      for_rules (rules provider ++ referralMarketing provider)
        (parse_qsl (query parsed)) = Ok kept ->
      urlparse (urlunparse (with_query parsed (urlencode kept)))
        = Some (with_query parsed (urlencode kept))
      /\ parse_qsl (urlencode kept) = kept) ->
  clean_url c ruleset true = Ok (PStr c)
  /\ (clean_url url ruleset true = Ok PFalse -> clean_url url ruleset true = Ok PFalse).
Proof.
  intros Hps Hr Hraw Hrun Hlib. split; [|auto].
  apply (second_pass_same ruleset name provider url c); assumption.
Qed.

End Properties.

(** ** Facts about the model of [urllib.parse] *)

Module UrlLibFacts.

Import UrlLib.
Local Open Scope char_scope.

Lemma split_cons c x s :
  exists h t, split c s = h :: t
              /\ split c (String x s)
                 = if Ascii.eqb x c then EmptyString :: h :: t else String x h :: t.
Proof.
  induction s as [|y s IH].
  - exists EmptyString, []. split; reflexivity.
  - destruct IH as [h [t [Hs _]]].
    remember (String y s) as s1 eqn:E.
    assert (Hne : exists h1 t1, split c s1 = h1 :: t1).
    { subst s1. simpl. rewrite Hs. destruct (Ascii.eqb y c); eauto. }
    destruct Hne as [h1 [t1 H1]]. exists h1, t1. split; [exact H1|].
    simpl. rewrite H1. reflexivity.
Qed.

(** [s.split(c)] cuts at every [c], left to right. *)
Lemma split_app c a b :
  split c (a ++ String c b) = (split c a ++ split c b)%list.
Proof.
  induction a as [|x a IH].
  - destruct (split_cons c c b) as [h [t [Hb Hc]]].
    simpl append. rewrite Hc, Hb, Ascii.eqb_refl. reflexivity.
  - destruct (split_cons c x a) as [h [t [Ha Hx]]].
    rewrite Hx. simpl append.
    destruct (split_cons c x (a ++ String c b)) as [h' [t' [Hab Hxab]]].
    rewrite Hxab. rewrite IH, Ha in Hab. simpl in Hab. injection Hab as <- <-.
    destruct (Ascii.eqb x c); reflexivity.
Qed.

Lemma split_absent c s :
  contains c s = false -> split c s = [s].
Proof.
  induction s as [|x s IH]; simpl; intros H; [reflexivity|].
  apply orb_false_iff in H as [Hx Hs].
  rewrite (IH Hs), Hx. reflexivity.
Qed.

Lemma parse_qsl_fields qs :
  parse_qsl qs = flat_map parse_field (split "&" qs).
Proof.
  unfold parse_qsl. destruct qs; reflexivity.
Qed.

(** [parse_qsl] reads the fields of the query from left to right: the
    pairs of [a&b] are the pairs of [a] followed by the pairs of [b], a key
    that occurs twice being listed twice. *)
Lemma parse_qsl_amp a b :
  parse_qsl (a ++ String "&" b) = (parse_qsl a ++ parse_qsl b)%list.
Proof.
  rewrite !parse_qsl_fields, split_app, flat_map_app. reflexivity.
Qed.

Lemma contains_app c a b :
  contains c (a ++ b) = contains c a || contains c b.
Proof.
  induction a as [|x a IH]; simpl; [reflexivity|].
  rewrite IH, orb_assoc. reflexivity.
Qed.

Lemma split_once_app c a b :
  contains c a = false ->
  split_once c (a ++ String c b) = Some (a, b).
Proof.
  induction a as [|x a IH]; simpl; intros H.
  - rewrite Ascii.eqb_refl. reflexivity.
  - apply orb_false_iff in H as [Hx Ha].
    rewrite Hx, (IH Ha). reflexivity.
Qed.

Lemma quote_plus_cons x s :
  quote_plus (String x s) = (quote1 x ++ quote_plus s)%string.
Proof. reflexivity. Qed.

Ltac each_char x :=
  destruct x as [[] [] [] [] [] [] [] []].

Lemma unquote_quote1 x t :
  unquote (replace_char "+" " " (quote1 x ++ t))
  = String x (unquote (replace_char "+" " " t)).
Proof.
  each_char x; reflexivity.
Qed.

(** Decoding undoes [quote_plus]. *)
Lemma unquote_quote_plus s :
  unquote (replace_char "+" " " (quote_plus s)) = s.
Proof.
  induction s as [|x s IH]; [reflexivity|].
  rewrite quote_plus_cons, unquote_quote1, IH. reflexivity.
Qed.

Lemma quote1_no_separator x :
  contains "&" (quote1 x) = false /\ contains "=" (quote1 x) = false
  /\ nonempty (quote1 x) = true.
Proof.
  each_char x; repeat split; reflexivity.
Qed.

Lemma quote_plus_no_separator s :
  contains "&" (quote_plus s) = false /\ contains "=" (quote_plus s) = false.
Proof.
  induction s as [|x s [IH1 IH2]]; [split; reflexivity|].
  rewrite quote_plus_cons, !contains_app, IH1, IH2.
  destruct (quote1_no_separator x) as [H1 [H2 _]]. rewrite H1, H2. split; reflexivity.
Qed.

Lemma quote_plus_nonempty s :
  s <> EmptyString -> nonempty (quote_plus s) = true.
Proof.
  destruct s as [|x s]; [congruence|]. intros _.
  rewrite quote_plus_cons.
  destruct (quote1_no_separator x) as [_ [_ H]].
  destruct (quote1 x); [discriminate | reflexivity].
Qed.

Lemma parse_field_encode_pair k v :
  v <> EmptyString -> parse_field (encode_pair (k, v)) = [(k, v)].
Proof.
  intros Hv. unfold parse_field, encode_pair. simpl fst; simpl snd.
  destruct (quote_plus_no_separator k) as [_ Hk].
  rewrite (split_once_app _ _ _ Hk), (quote_plus_nonempty _ Hv), !unquote_quote_plus.
  reflexivity.
Qed.

Lemma encode_pair_no_amp kv : contains "&" (encode_pair kv) = false.
Proof.
  unfold encode_pair. rewrite contains_app. cbn [contains].
  destruct (quote_plus_no_separator (fst kv)) as [-> _].
  destruct (quote_plus_no_separator (snd kv)) as [-> _]. reflexivity.
Qed.

Lemma split_join_amp fields :
  fields <> [] ->
  Forall (fun f => contains "&" f = false) fields ->
  split "&" (join_amp fields) = fields.
Proof.
  induction fields as [|f rest IH]; [congruence|]. intros _ Hall.
  inversion Hall as [|? ? Hf Hrest]; subst.
  destruct rest as [|g rest'].
  - simpl. apply split_absent, Hf.
  - change (join_amp (f :: g :: rest'))
      with (f ++ String "&" (join_amp (g :: rest')))%string.
    rewrite split_app, (split_absent _ _ Hf), IH; [reflexivity | discriminate | assumption].
Qed.

(** [parse_qsl] gives back the pairs [urlencode] wrote, when no value is
    empty (a field with an empty value is dropped by [parse_qsl]). *)
Lemma parse_qsl_urlencode pairs :
  Forall (fun kv => snd kv <> EmptyString) pairs ->
  parse_qsl (urlencode pairs) = pairs.
Proof.
  intros Hv. rewrite parse_qsl_fields. unfold urlencode.
  destruct pairs as [|p rest]; [reflexivity|].
  rewrite split_join_amp.
  - induction Hv as [|[k v] l Hkv _ IH]; [reflexivity|].
    simpl map. simpl flat_map. rewrite (parse_field_encode_pair k v Hkv).
    simpl. f_equal. exact IH.
  - discriminate.
  - apply Forall_map, Forall_forall. intros kv _. apply encode_pair_no_amp.
Qed.

Lemma unquote_nonempty s :
  s <> EmptyString -> unquote s <> EmptyString.
Proof.
  destruct s as [|x s]; [congruence|]. intros _. simpl.
  destruct (Ascii.eqb x "%"); [|discriminate].
  destruct s as [|a [|b s']]; try discriminate.
  destruct (hex_value a), (hex_value b); discriminate.
Qed.

Lemma replace_char_nonempty a b s :
  s <> EmptyString -> replace_char a b s <> EmptyString.
Proof.
  destruct s; [congruence | discriminate].
Qed.

(** The pairs [parse_qsl] returns have a non-empty value. *)
Lemma parse_qsl_values qs :
  Forall (fun kv => snd kv <> EmptyString) (parse_qsl qs).
Proof.
  rewrite parse_qsl_fields. apply Forall_flat_map, Forall_forall.
  intros field _. unfold parse_field.
  destruct (split_once "=" field) as [[name value]|]; [|constructor].
  destruct (nonempty value) eqn:Hv; [|constructor].
  constructor; [|constructor].
  cbn [snd]. apply unquote_nonempty, replace_char_nonempty.
  intros ->. discriminate.
Qed.

(** *** Cutting strings *)

Lemma split_once_Some c s a b :
  split_once c s = Some (a, b) ->
  s = (a ++ String c b)%string /\ contains c a = false.
Proof.
  revert a; induction s as [|x s IH]; simpl; intros a H; [discriminate|].
  destruct (Ascii.eqb x c) eqn:E.
  - injection H as <- <-. apply Ascii.eqb_eq in E as ->. split; reflexivity.
  - destruct (split_once c s) as [[a' b']|]; [|discriminate].
    injection H as <- <-. destruct (IH a' eq_refl) as [-> Ha].
    simpl. rewrite E, Ha. split; reflexivity.
Qed.

Lemma split_once_None c s :
  split_once c s = None <-> contains c s = false.
Proof.
  induction s as [|x s IH]; simpl; [tauto|].
  destruct (Ascii.eqb x c); simpl.
  - split; discriminate.
  - destruct (split_once c s) as [[a b]|].
    + split; [discriminate|]. intros H. apply IH in H. discriminate.
    + split; [intros _; apply IH; reflexivity | reflexivity].
Qed.

Lemma append_assoc a b c : ((a ++ b) ++ c)%string = (a ++ (b ++ c))%string.
Proof. induction a as [|x a IH]; simpl; congruence. Qed.

Lemma append_nil_r a : (a ++ EmptyString)%string = a.
Proof. induction a as [|x a IH]; simpl; congruence. Qed.

Lemma split_once_app_l c t a b s2 :
  split_once c t = Some (a, b) ->
  split_once c (t ++ s2) = Some (a, (b ++ s2)%string).
Proof.
  intros H. destruct (split_once_Some _ _ _ _ H) as [-> Ha].
  rewrite append_assoc. simpl. apply split_once_app, Ha.
Qed.

Lemma contains_remove_char a b s :
  contains a (remove_char b s) = if Ascii.eqb a b then false else contains a s.
Proof.
  induction s as [|x s IH]; simpl.
  - destruct (Ascii.eqb a b); reflexivity.
  - destruct (Ascii.eqb x b) eqn:Exb; simpl; rewrite IH.
    + destruct (Ascii.eqb a b) eqn:Eab; [reflexivity|].
      apply Ascii.eqb_eq in Exb as ->. rewrite Ascii.eqb_sym, Eab. reflexivity.
    + destruct (Ascii.eqb a b) eqn:Eab; [|reflexivity].
      apply Ascii.eqb_eq in Eab as ->. rewrite Exb. reflexivity.
Qed.

Lemma remove_char_absent a s :
  contains a s = false -> remove_char a s = s.
Proof.
  induction s as [|x s IH]; simpl; intros H; [reflexivity|].
  apply orb_false_iff in H as [Hx Hs]. rewrite Hx, (IH Hs). reflexivity.
Qed.

Lemma chars_of_refl x : chars_of x x.
Proof. intros c H; exact H. Qed.

Lemma chars_of_trans x y z : chars_of x y -> chars_of y z -> chars_of x z.
Proof. intros H1 H2 c H. auto. Qed.

Lemma chars_of_app_l a b : chars_of a (a ++ b).
Proof. intros c H. rewrite contains_app in H. apply orb_false_iff in H. tauto. Qed.

Lemma chars_of_app_r a b : chars_of b (a ++ b).
Proof. intros c H. rewrite contains_app in H. apply orb_false_iff in H. tauto. Qed.

Lemma chars_of_tail x s : chars_of s (String x s).
Proof. intros c H. simpl in H. apply orb_false_iff in H. tauto. Qed.

Lemma chars_of_split_once c s a b :
  split_once c s = Some (a, b) -> chars_of a s /\ chars_of b s.
Proof.
  intros H. destruct (split_once_Some _ _ _ _ H) as [-> _]. split.
  - apply chars_of_app_l.
  - eapply chars_of_trans; [apply chars_of_tail | apply chars_of_app_r].
Qed.

Lemma tidy_chars_of y x : chars_of y x -> tidy x = true -> tidy y = true.
Proof.
  unfold tidy. intros H Hx.
  apply andb_true_iff in Hx as [Hx H13]. apply andb_true_iff in Hx as [H9 H10].
  apply negb_true_iff in H9, H10, H13.
  rewrite (H _ H9), (H _ H10), (H _ H13). reflexivity.
Qed.

Lemma contains_forallb P c s :
  forallb_string P s = true -> P c = false -> contains c s = false.
Proof.
  induction s as [|x s IH]; simpl; intros H Hc; [reflexivity|].
  apply andb_true_iff in H as [Hx Hs]. rewrite (IH Hs Hc), orb_false_r.
  destruct (Ascii.eqb x c) eqn:E; [|reflexivity].
  apply Ascii.eqb_eq in E as ->. congruence.
Qed.

Lemma tidy_lacks s c :
  tidy s = true ->
  c = ascii_of_nat 9 \/ c = ascii_of_nat 10 \/ c = ascii_of_nat 13 ->
  contains c s = false.
Proof.
  unfold tidy. intros H Hc.
  apply andb_true_iff in H as [H H13]. apply andb_true_iff in H as [H9 H10].
  apply negb_true_iff in H9, H10, H13.
  destruct Hc as [->|[->| ->]]; assumption.
Qed.

Lemma tidy_intro s :
  contains (ascii_of_nat 9) s = false ->
  contains (ascii_of_nat 10) s = false ->
  contains (ascii_of_nat 13) s = false ->
  tidy s = true.
Proof. unfold tidy. intros -> -> ->. reflexivity. Qed.

Lemma tidy_app a b : tidy (a ++ b) = tidy a && tidy b.
Proof.
  unfold tidy. rewrite !contains_app.
  repeat match goal with
         | |- context [contains ?c ?s] => destruct (contains c s)
         end; reflexivity.
Qed.

(** *** The scheme *)

Lemma lower_scheme_char c :
  Re.is_alpha (Re.lower c) = Re.is_alpha c
  /\ is_scheme_char (Re.lower c) = is_scheme_char c
  /\ Re.lower (Re.lower c) = Re.lower c.
Proof. each_char c; repeat split; reflexivity. Qed.

Lemma alpha_not_blank c :
  Re.is_alpha c = true -> (nat_of_ascii c <=? 32)%nat = false.
Proof. each_char c; intros H; try reflexivity; discriminate H. Qed.

Lemma forallb_map_lower s :
  forallb_string is_scheme_char (map_string Re.lower s)
  = forallb_string is_scheme_char s.
Proof.
  induction s as [|x s IH]; simpl; [reflexivity|].
  destruct (lower_scheme_char x) as [_ [-> _]]. rewrite IH. reflexivity.
Qed.

Lemma map_lower_idem s :
  map_string Re.lower (map_string Re.lower s) = map_string Re.lower s.
Proof.
  induction s as [|x s IH]; simpl; [reflexivity|].
  destruct (lower_scheme_char x) as [_ [_ ->]]. rewrite IH. reflexivity.
Qed.

Lemma scheme_ok_lower y t :
  Re.is_alpha y = true ->
  forallb_string is_scheme_char (String y t) = true ->
  scheme_ok (map_string Re.lower (String y t)) = true.
Proof.
  intros Ha Hall.
  assert (H1 : forallb_string is_scheme_char (map_string Re.lower (String y t)) = true)
    by (rewrite forallb_map_lower; exact Hall).
  assert (H2 : String.eqb (map_string Re.lower (map_string Re.lower (String y t)))
                 (map_string Re.lower (String y t)) = true)
    by (rewrite map_lower_idem; apply String.eqb_refl).
  destruct (lower_scheme_char y) as [H3 _]. rewrite Ha in H3.
  cbn [map_string] in *. unfold scheme_ok. cbn [map_string]. rewrite H3, H1, H2. reflexivity.
Qed.

(** The scheme [split_scheme] finds is well formed, and what is left is
    made of characters of the URL. *)
Lemma split_scheme_shape url s rest :
  split_scheme url = (s, rest) ->
  scheme_ok s = true /\ chars_of rest url.
Proof.
  unfold split_scheme. destruct url as [|x url']; [intros [= <- <-]; split; [reflexivity | apply chars_of_refl]|].
  destruct (split_once ":" (String x url')) as [[[|y before] after]|] eqn:E;
    try (intros [= <- <-]; split; [reflexivity | apply chars_of_refl]).
  destruct (Re.is_alpha x && forallb_string is_scheme_char (String y before)) eqn:C;
    [|intros [= <- <-]; split; [reflexivity | apply chars_of_refl]].
  intros [= <- <-].
  destruct (chars_of_split_once _ _ _ _ E) as [_ Hafter].
  split; [|exact Hafter].
  destruct (split_once_Some _ _ _ _ E) as [Heq _].
  simpl in Heq. injection Heq as <- _.
  apply andb_true_iff in C as [Ha Hall].
  apply scheme_ok_lower; assumption.
Qed.

Lemma scheme_ok_lacks s c :
  scheme_ok s = true -> is_scheme_char c = false -> contains c s = false.
Proof.
  destruct s as [|y s']; [reflexivity|]. unfold scheme_ok. intros H Hc.
  apply andb_true_iff in H as [H _]. apply andb_true_iff in H as [_ H].
  apply (contains_forallb _ _ _ H Hc).
Qed.

Lemma split_scheme_join s rest :
  scheme_ok s = true -> s <> EmptyString ->
  split_scheme (s ++ String ":" rest) = (s, rest).
Proof.
  intros Hok Hne. destruct s as [|y s']; [congruence|].
  pose proof (scheme_ok_lacks _ ":" Hok eq_refl) as Hcolon.
  pose proof (split_once_app ":" (String y s') rest Hcolon) as Hcut.
  cbn [append] in Hcut |- *.
  unfold split_scheme. rewrite Hcut.
  unfold scheme_ok in Hok.
  apply andb_true_iff in Hok as [Hok Hlow]. rewrite Hok.
  apply String.eqb_eq in Hlow. rewrite Hlow. reflexivity.
Qed.

Lemma split_scheme_slash rest :
  split_scheme (String "/" rest) = (EmptyString, String "/" rest).
Proof.
  unfold split_scheme.
  destruct (split_once ":" (String "/" rest)) as [[[|y before] after]|]; reflexivity.
Qed.

(** *** The authority *)

Lemma splitnetloc_shape s n r :
  splitnetloc s = (n, r) ->
  s = (n ++ r)%string
  /\ contains "/" n = false /\ contains "?" n = false /\ contains "#" n = false
  /\ delimited r = true.
Proof.
  revert n; induction s as [|x s IH]; simpl; intros n H.
  - injection H as <- <-. repeat split; reflexivity.
  - destruct (Ascii.eqb x "/" || Ascii.eqb x "?" || Ascii.eqb x "#") eqn:E.
    + injection H as <- <-. simpl. rewrite E. repeat split; reflexivity.
    + destruct (splitnetloc s) as [n' r'] eqn:Es. injection H as <- <-.
      destruct (IH n' eq_refl) as [-> [H1 [H2 [H3 H4]]]].
      apply orb_false_iff in E as [E E3]. apply orb_false_iff in E as [E1 E2].
      simpl. rewrite E1, E2, E3, H1, H2, H3. repeat split; try reflexivity. exact H4.
Qed.

Lemma splitnetloc_join n r :
  contains "/" n = false -> contains "?" n = false -> contains "#" n = false ->
  delimited r = true ->
  splitnetloc (n ++ r) = (n, r).
Proof.
  induction n as [|x n IH]; simpl; intros H1 H2 H3 Hr.
  - destruct r as [|c r']; [reflexivity|]. simpl in *. rewrite Hr. reflexivity.
  - apply orb_false_iff in H1 as [E1 H1]. apply orb_false_iff in H2 as [E2 H2].
    apply orb_false_iff in H3 as [E3 H3].
    rewrite E1, E2, E3, (IH H1 H2 H3 Hr). reflexivity.
Qed.
Lemma split_netloc_shape url n rest :
  split_netloc url = (n, rest) ->
  chars_of n url /\ chars_of rest url
  /\ contains "/" n = false /\ contains "?" n = false /\ contains "#" n = false
  /\ (n <> EmptyString -> delimited rest = true).
Proof.
  unfold split_netloc.
  assert (Hplain : (EmptyString, url) = (n, rest) ->
                   chars_of n url /\ chars_of rest url
                   /\ contains "/" n = false /\ contains "?" n = false
                   /\ contains "#" n = false
                   /\ (n <> EmptyString -> delimited rest = true)).
  { intros [= <- <-]. split; [intros c _; reflexivity|].
    split; [apply chars_of_refl|].
    repeat split; try reflexivity. intros H; congruence. }
  destruct url as [|x url']; [exact Hplain|].
  destruct (Ascii.eqb x "/") eqn:Ex.
  2:{ each_char x; try exact Hplain; discriminate Ex. }
  apply Ascii.eqb_eq in Ex as ->.
  destruct url' as [|y after]; [exact Hplain|].
  destruct (Ascii.eqb y "/") eqn:Ey.
  2:{ each_char y; try exact Hplain; discriminate Ey. }
  apply Ascii.eqb_eq in Ey as ->. clear Hplain.
  intros H. destruct (splitnetloc_shape _ _ _ H) as [-> [H1 [H2 [H3 H4]]]].
  repeat split; try assumption.
  - eapply chars_of_trans; [apply chars_of_app_l|].
    eapply chars_of_trans; apply chars_of_tail.
  - eapply chars_of_trans; [apply chars_of_app_r|].
    eapply chars_of_trans; apply chars_of_tail.
  - intros _. exact H4.
Qed.

Lemma cut_at_shape c s a b :
  cut_at c s = (a, b) ->
  chars_of a s /\ chars_of b s /\ contains c a = false
  /\ (s = a \/ s = (a ++ String c b)%string).
Proof.
  unfold cut_at. destruct (split_once c s) as [[u r]|] eqn:E; intros [= <- <-].
  - destruct (chars_of_split_once _ _ _ _ E) as [Hu Hr].
    destruct (split_once_Some _ _ _ _ E) as [Heq Hc]. auto.
  - split; [apply chars_of_refl|].
    split; [intros x _; reflexivity|].
    split; [apply split_once_None, E | left; reflexivity].
Qed.

Lemma cut_at_join c a b :
  contains c a = false ->
  cut_at c (if nonempty b then a ++ String c b else a)%string = (a, b).
Proof.
  intros Ha. unfold cut_at. destruct b as [|x b']; simpl nonempty; cbv iota.
  - apply split_once_None in Ha. rewrite Ha. reflexivity.
  - rewrite (split_once_app _ _ _ Ha). reflexivity.
Qed.

Lemma rooted_prefix a s :
  (s = a \/ exists t, s = (a ++ t)%string) ->
  contains "?" a = false -> contains "#" a = false ->
  delimited s = true -> rooted a = true.
Proof.
  intros Hs Hq Hh Hd.
  assert (Hpre : exists t, s = (a ++ t)%string).
  { destruct Hs as [->|H]; [exists EmptyString; symmetry; apply append_nil_r | exact H]. }
  destruct Hpre as [t ->].
  destruct a as [|x a']; [reflexivity|].
  simpl in *.
  apply orb_false_iff in Hq as [Hq _]. apply orb_false_iff in Hh as [Hh _].
  rewrite Hq, Hh in Hd. rewrite !orb_false_r in Hd. exact Hd.
Qed.

Lemma lacks_chars_of c y x : chars_of y x -> contains c x = false -> contains c y = false.
Proof. intros H; apply H. Qed.

(** The components [urlsplit] returns. *)
Lemma urlsplit_shape url s n u q f :
  urlsplit url = Some (s, n, u, q, f) ->
  scheme_ok s = true /\ netloc_ok n = true /\ path_ok u = true
  /\ query_ok q = true /\ tidy f = true
  /\ (n <> EmptyString -> rooted u = true).
Proof.
  unfold urlsplit.
  set (url2 := remove_char (ascii_of_nat 10)
                 (remove_char (ascii_of_nat 13)
                    (remove_char (ascii_of_nat 9) (lstrip_c0 url)))).
  assert (Htidy : tidy url2 = true).
  { apply tidy_intro; unfold url2; rewrite !contains_remove_char; reflexivity. }
  clearbody url2.
  destruct (split_scheme url2) as [s' url3] eqn:Es.
  destruct (split_scheme_shape _ _ _ Es) as [Hs H3].
  destruct (split_netloc url3) as [n' url4] eqn:En.
  destruct (split_netloc_shape _ _ _ En) as [Hn [H4 [Hn1 [Hn2 [Hn3 Hdel]]]]].
  destruct (xorb (contains "[" n') (contains "]" n')) eqn:Hbr; [discriminate|].
  destruct (cut_at "#" url4) as [url5 f'] eqn:Ef.
  destruct (cut_at_shape _ _ _ _ Ef) as [H5 [Hf [Hhash Hcut5]]].
  destruct (cut_at "?" url5) as [u' q'] eqn:Eq.
  destruct (cut_at_shape _ _ _ _ Eq) as [Hu [Hq [Hquest Hcutu]]].
  intros [= <- <- <- <- <-].
  assert (T3 : tidy url3 = true) by (apply (tidy_chars_of _ _ H3 Htidy)).
  assert (T4 : tidy url4 = true) by (apply (tidy_chars_of _ _ H4 T3)).
  assert (T5 : tidy url5 = true) by (apply (tidy_chars_of _ _ H5 T4)).
  assert (Hhu : contains "#" u' = false) by (apply (Hu _ Hhash)).
  assert (Hhq : contains "#" q' = false) by (apply (Hq _ Hhash)).
  split; [exact Hs|]. split.
  { unfold netloc_ok. rewrite Hn1, Hn2, Hn3, Hbr, (tidy_chars_of _ _ Hn T3). reflexivity. }
  split.
  { unfold path_ok. rewrite Hquest, Hhu, (tidy_chars_of _ _ Hu T5). reflexivity. }
  split.
  { unfold query_ok. rewrite Hhq, (tidy_chars_of _ _ Hq T5). reflexivity. }
  split; [apply (tidy_chars_of _ _ Hf T4)|].
  intros Hne. apply (rooted_prefix u' url4); auto.
  destruct Hcutu as [Hcutu | Hcutu], Hcut5 as [Hcut5 | Hcut5]; subst url5 url4; eauto.
  right. eexists. rewrite append_assoc. reflexivity.
Qed.
Lemma rooted_no_slash_added u :
  rooted u = true ->
  (if nonempty u && negb (starts_slash u) then "/" ++ u else u)%string = u.
Proof.
  destruct u as [|c u']; [reflexivity|]. simpl. intros H.
  apply Ascii.eqb_eq in H as ->. reflexivity.
Qed.

Lemma urlunsplit_form s n u q f :
  n <> EmptyString -> rooted u = true ->
  urlunsplit s n u q f
  = let r := String "/" (String "/" (n ++ after_netloc u q f)) in
    if nonempty s then (s ++ String ":" r)%string else r.
Proof.
  intros Hn Hu. unfold urlunsplit, after_netloc.
  destruct n as [|n0 n']; [congruence|]. cbn [nonempty orb].
  rewrite (rooted_no_slash_added _ Hu).
  destruct (nonempty s), (nonempty q), (nonempty f); cbn [append];
    rewrite ?append_assoc; cbn [append]; rewrite ?append_assoc; reflexivity.
Qed.

Lemma tidy_cons c s :
  tidy (String c EmptyString) = true -> tidy (String c s) = tidy s.
Proof.
  unfold tidy. simpl. rewrite !orb_false_r.
  destruct (Ascii.eqb c (ascii_of_nat 9)), (Ascii.eqb c (ascii_of_nat 10)),
    (Ascii.eqb c (ascii_of_nat 13)); simpl; try discriminate; reflexivity.
Qed.

Lemma tidy_after_netloc u q f :
  tidy u = true -> tidy q = true -> tidy f = true ->
  tidy (after_netloc u q f) = true.
Proof.
  intros Hu Hq Hf. unfold after_netloc.
  destruct (nonempty q), (nonempty f);
    rewrite ?tidy_app, ?tidy_cons, ?tidy_app, ?tidy_cons, ?Hu, ?Hq, ?Hf; reflexivity.
Qed.

Lemma scheme_ok_tidy s : scheme_ok s = true -> tidy s = true.
Proof.
  intros H. apply tidy_intro; apply (scheme_ok_lacks _ _ H); reflexivity.
Qed.

Lemma delimited_after_netloc u q f :
  rooted u = true -> delimited (after_netloc u q f) = true.
Proof.
  unfold after_netloc. destruct u as [|c u']; simpl.
  - intros _. destruct q, f; reflexivity.
  - intros H. apply Ascii.eqb_eq in H as ->.
    destruct (nonempty q), (nonempty f); reflexivity.
Qed.

Lemma lstrip_c0_id x s :
  (nat_of_ascii x <=? 32)%nat = false -> lstrip_c0 (String x s) = String x s.
Proof. simpl. intros ->. reflexivity. Qed.

(** [urlsplit] reads back what [urlunsplit] wrote, for a URL with an
    authority. *)
Lemma urlsplit_urlunsplit s n u q f :
  scheme_ok s = true -> n <> EmptyString -> netloc_ok n = true ->
  path_ok u = true -> rooted u = true -> query_ok q = true -> tidy f = true ->
  urlsplit (urlunsplit s n u q f) = Some (s, n, u, q, f).
Proof.
  intros Hs Hne Hn Hu Hroot Hq Hf.
  rewrite (urlunsplit_form _ _ _ _ _ Hne Hroot). cbv zeta.
  unfold netloc_ok in Hn.
  apply andb_true_iff in Hn as [Hn Tn]. apply andb_true_iff in Hn as [Hn Hbr].
  apply andb_true_iff in Hn as [Hn N3]. apply andb_true_iff in Hn as [N1 N2].
  apply negb_true_iff in N1, N2, N3, Hbr.
  unfold path_ok in Hu.
  apply andb_true_iff in Hu as [Hu Tu]. apply andb_true_iff in Hu as [U1 U2].
  apply negb_true_iff in U1, U2.
  unfold query_ok in Hq. apply andb_true_iff in Hq as [Q1 Tq].
  apply negb_true_iff in Q1.
  set (T := after_netloc u q f).
  assert (TT : tidy T = true) by (apply tidy_after_netloc; assumption).
  assert (TR : tidy (String "/" (String "/" (n ++ T))) = true).
  { rewrite !tidy_cons, tidy_app, Tn, TT; reflexivity. }
  set (R := String "/" (String "/" (n ++ T))) in *.
  set (U := if nonempty s then (s ++ String ":" R)%string else R).
  assert (TU : tidy U = true).
  { unfold U. destruct (nonempty s); [|exact TR].
    rewrite tidy_app, tidy_cons, (scheme_ok_tidy _ Hs), TR; reflexivity. }
  assert (Hstrip : lstrip_c0 U = U).
  { unfold U. destruct s as [|y s']; [reflexivity|]. cbn [nonempty append].
    apply lstrip_c0_id, alpha_not_blank.
    unfold scheme_ok in Hs. apply andb_true_iff in Hs as [Hs _].
    apply andb_true_iff in Hs as [Hs _]. exact Hs. }
  assert (Hscheme : split_scheme U = (s, R)).
  { unfold U. destruct s as [|y s'] eqn:Es.
    - apply split_scheme_slash.
    - cbn [nonempty]. apply split_scheme_join; [exact Hs | discriminate]. }
  unfold urlsplit. rewrite Hstrip.
  rewrite (remove_char_absent (ascii_of_nat 9) U) by (apply (tidy_lacks _ _ TU); auto).
  rewrite (remove_char_absent (ascii_of_nat 13) U) by (apply (tidy_lacks _ _ TU); auto).
  rewrite (remove_char_absent (ascii_of_nat 10) U) by (apply (tidy_lacks _ _ TU); auto).
  rewrite Hscheme. unfold R at 1. unfold split_netloc.
  rewrite (splitnetloc_join n T N1 N2 N3 (delimited_after_netloc _ _ _ Hroot)).
  rewrite Hbr. unfold T, after_netloc.
  rewrite cut_at_join.
  - rewrite (cut_at_join _ _ _ U1). reflexivity.
  - destruct (nonempty q); [|exact U2].
    rewrite contains_app, U2. simpl. exact Q1.
Qed.
(** *** The params *)

Lemma rsplit_slash_Some u head tail :
  rsplit_slash u = Some (head, tail) ->
  u = (head ++ tail)%string
  /\ exists t, tail = String "/" t /\ contains "/" t = false.
Proof.
  revert head; induction u as [|x u IH]; simpl; intros head H; [discriminate|].
  destruct (rsplit_slash u) as [[a b]|] eqn:E.
  - injection H as <- <-. destruct (IH a eq_refl) as [-> Ht]. split; [reflexivity | exact Ht].
  - destruct (Ascii.eqb x "/") eqn:Ex; [|discriminate].
    injection H as <- <-. apply Ascii.eqb_eq in Ex as ->.
    split; [reflexivity|]. exists u. split; [reflexivity|].
    clear IH. induction u as [|y u IHu]; [reflexivity|].
    simpl in E. destruct (rsplit_slash u) as [[a b]|]; [discriminate|].
    destruct (Ascii.eqb y "/") eqn:Ey; [discriminate|].
    simpl. rewrite Ey. apply IHu. reflexivity.
Qed.

Lemma rsplit_slash_absent u :
  contains "/" u = false <-> rsplit_slash u = None.
Proof.
  induction u as [|x u IH]; simpl; [tauto|].
  destruct (rsplit_slash u) as [[a b]|].
  - split; [|discriminate]. intros H. apply orb_false_iff in H as [_ H].
    apply IH in H. discriminate.
  - destruct (Ascii.eqb x "/"); simpl; split; try discriminate; try reflexivity.
    intros _. apply IH. reflexivity.
Qed.

Lemma rsplit_slash_join head t :
  contains "/" t = false ->
  rsplit_slash (head ++ String "/" t) = Some (head, String "/" t).
Proof.
  intros Ht. induction head as [|x head IH]; simpl.
  - apply rsplit_slash_absent in Ht. rewrite Ht. reflexivity.
  - simpl in IH. rewrite IH. reflexivity.
Qed.

Lemma splitparams_cases u p pa :
  splitparams u = (p, pa) ->
  u = (p ++ String ";" pa)%string \/ (u = p /\ pa = EmptyString).
Proof.
  unfold splitparams.
  destruct (rsplit_slash u) as [[head tail]|] eqn:Er.
  - destruct (rsplit_slash_Some _ _ _ Er) as [-> _].
    destruct (split_once ";" tail) as [[a b]|] eqn:Es; intros [= <- <-]; [|auto].
    destruct (split_once_Some _ _ _ _ Es) as [-> _].
    left. rewrite append_assoc. reflexivity.
  - destruct (split_once ";" u) as [[a b]|] eqn:Es; intros [= <- <-]; [|auto].
    destruct (split_once_Some _ _ _ _ Es) as [-> _]. left; reflexivity.
Qed.

Lemma splitparams_without_params u p :
  splitparams u = (p, EmptyString) -> splitparams p = (p, EmptyString).
Proof.
  unfold splitparams.
  destruct (rsplit_slash u) as [[head tail]|] eqn:Er.
  - destruct (rsplit_slash_Some _ _ _ Er) as [-> [t [-> Ht]]].
    destruct (split_once ";" (String "/" t)) as [[a b]|] eqn:Es.
    + intros [= <- ->].
      destruct (split_once_Some _ _ _ _ Es) as [Heq Ha].
      destruct a as [|x a']; [discriminate Heq|].
      simpl in Heq. injection Heq as <- ->.
      rewrite contains_app in Ht. apply orb_false_iff in Ht as [Ht _].
      rewrite (rsplit_slash_join head a' Ht).
      apply split_once_None in Ha. rewrite Ha. reflexivity.
    + intros [= <-]. rewrite Er, Es. reflexivity.
  - destruct (split_once ";" u) as [[a b]|] eqn:Es.
    + intros [= <- ->].
      destruct (split_once_Some _ _ _ _ Es) as [-> Ha].
      apply rsplit_slash_absent in Er.
      rewrite contains_app in Er. apply orb_false_iff in Er as [Er _].
      apply rsplit_slash_absent in Er. rewrite Er.
      apply split_once_None in Ha. rewrite Ha. reflexivity.
    + intros [= <-]. rewrite Er, Es. reflexivity.
Qed.

(** Cutting the params off what [urlunparse] joined gives the path and
    the params again. *)
Lemma split_params_stable s u p pa :
  split_params s u = (p, pa) ->
  split_params s (join_params p pa) = (p, pa).
Proof.
  unfold split_params.
  destruct (mem s uses_params && contains ";" u) eqn:E.
  2:{ intros [= <- <-]. unfold join_params. cbn [nonempty]. rewrite E. reflexivity. }
  intros Hsp. apply andb_true_iff in E as [Em Ec]. rewrite Em. simpl andb.
  destruct pa as [|c pa']; unfold join_params; cbn [nonempty].
  - destruct (contains ";" p); [|reflexivity].
    apply (splitparams_without_params _ _ Hsp).
  - destruct (splitparams_cases _ _ _ Hsp) as [<-|[_ H]]; [|discriminate].
    rewrite Ec. exact Hsp.
Qed.

Lemma join_params_shape s u p pa :
  split_params s u = (p, pa) ->
  chars_of (join_params p pa) u
  /\ (rooted u = true -> rooted (join_params p pa) = true).
Proof.
  unfold split_params. intros H.
  assert (Hc : u = (p ++ String ";" pa)%string \/ (u = p /\ pa = EmptyString)).
  { destruct (mem s uses_params && contains ";" u).
    - apply splitparams_cases, H.
    - injection H as <- <-. auto. }
  unfold join_params. destruct pa as [|c pa']; cbn [nonempty].
  - destruct Hc as [->|[-> _]].
    + split; [apply chars_of_app_l|]. destruct p; [reflexivity | exact (fun H => H)].
    + split; [apply chars_of_refl | exact (fun H => H)].
  - destruct Hc as [->|[_ Hpa]]; [|discriminate].
    split; [apply chars_of_refl | exact (fun H => H)].
Qed.

Lemma path_ok_chars_of y x : chars_of y x -> path_ok x = true -> path_ok y = true.
Proof.
  unfold path_ok. intros H Hx.
  apply andb_true_iff in Hx as [Hx T]. apply andb_true_iff in Hx as [H1 H2].
  apply negb_true_iff in H1, H2.
  rewrite (H _ H1), (H _ H2), (tidy_chars_of _ _ H T). reflexivity.
Qed.

(** [urlparse] reads back the components [urlunparse] was given, when they
    are those of a URL with an authority, whatever well-formed query
    replaces the original one. *)
Theorem urlparse_urlunparse url parsed q :
  urlparse url = Some parsed ->
  netloc parsed <> EmptyString ->
  query_ok q = true ->
  urlparse (urlunparse (with_query parsed q)) = Some (with_query parsed q).
Proof.
  unfold urlparse at 1.
  destruct (urlsplit url) as [[[[[s n] u] q0] f]|] eqn:E; [|discriminate].
  destruct (split_params s u) as [p pa] eqn:Ep.
  intros [= <-] Hne Hq. cbn [netloc] in Hne.
  destruct (urlsplit_shape _ _ _ _ _ _ E) as [Hs [Hn [Hu [_ [Hf Hroot]]]]].
  destruct (join_params_shape _ _ _ _ Ep) as [Hj Hjroot].
  unfold urlunparse, with_query. cbn [scheme netloc path params query fragment].
  unfold urlparse.
  rewrite (urlsplit_urlunsplit s n (join_params p pa) q f Hs Hne Hn
             (path_ok_chars_of _ _ Hj Hu) (Hjroot (Hroot Hne)) Hq Hf).
  rewrite (split_params_stable _ _ _ _ Ep). reflexivity.
Qed.

Lemma query_ok_app a b : query_ok (a ++ b) = query_ok a && query_ok b.
Proof.
  unfold query_ok. rewrite tidy_app, contains_app.
  destruct (contains "#" a), (contains "#" b), (tidy a), (tidy b); reflexivity.
Qed.

Lemma query_ok_cons c s :
  query_ok (String c EmptyString) = true -> query_ok (String c s) = query_ok s.
Proof.
  intros H. change (String c s) with (String c EmptyString ++ s)%string.
  rewrite query_ok_app, H. reflexivity.
Qed.

Lemma quote_plus_query_ok s : query_ok (quote_plus s) = true.
Proof.
  induction s as [|x s IH]; [reflexivity|].
  rewrite quote_plus_cons, query_ok_app, IH, andb_true_r.
  each_char x; reflexivity.
Qed.

(** What [urlencode] writes is read back by [urlsplit] as one query. *)
Lemma urlencode_query_ok pairs : query_ok (urlencode pairs) = true.
Proof.
  unfold urlencode.
  induction pairs as [|kv rest IH]; [reflexivity|].
  assert (Hkv : query_ok (encode_pair kv) = true).
  { unfold encode_pair.
    rewrite query_ok_app, query_ok_cons, !quote_plus_query_ok; reflexivity. }
  destruct rest as [|kv' rest']; [exact Hkv|].
  change (join_amp (map encode_pair (kv :: kv' :: rest')))
    with (encode_pair kv ++ String "&" (join_amp (map encode_pair (kv' :: rest'))))%string.
  rewrite query_ok_app, query_ok_cons, Hkv, IH; reflexivity.
Qed.

End UrlLibFacts.

(** ** The routine run on concrete URLs *)

Section Concrete.

Import Examples.

#[local] Existing Instance ascii_lib.

(** The examples of the specification. *)
Example spec_example_cleaned :
  clean_url "https://example.com/a?utm_source=x&id=1" example_rules true
  = Ok (PStr "https://example.com/a?id=1").
Proof. vm_compute. reflexivity. Qed.

Example spec_example_unchanged :
  clean_url "https://other.com/a?utm_source=x" example_rules true
  = Ok (PStr "https://other.com/a?utm_source=x").
Proof. vm_compute. reflexivity. Qed.

(** A redirection pattern without a group: the IndexError of
    [match.group(1)] is caught and the URL goes on to the query rules. *)
Example missing_group_is_skipped :
  redirect_target "^https://go\.example/plain" "https://go.example/plain?a=1" = Ok None
  /\ clean_url "https://go.example/plain?a=1" redirect_rules true
     = Ok (PStr "https://go.example/plain?a=1").
Proof. split; vm_compute; reflexivity. Qed.

Lemma complete_provider_blocks_witness :
  clean_url "https://go.example/x?utm_source=1" blocking_rules true = Ok PFalse.
Proof.
  eapply (complete_provider_blocks blocking_rules true
            [("example", example_com)] "go" go_complete [("late", example_com)]
            "https://go.example/x?utm_source=1" "https://go.example/x?utm_source=1").
  - reflexivity.
  - vm_compute. reflexivity.
  - vm_compute. reflexivity.
  - reflexivity.
Defined.

Lemma exception_skips_provider_witness :
  provider_step no_self true with_exception "https://example.com/keep?utm_source=x"
    = Ok (Continue "https://example.com/keep?utm_source=x")
  /\ for_providers no_self true [("e", with_exception); ("x", example_com)]
       "https://example.com/keep?utm_source=x"
     = for_providers no_self true [("x", example_com)]
         "https://example.com/keep?utm_source=x".
Proof.
  eapply (exception_skips_provider no_self true "e" with_exception
            [("x", example_com)] "https://example.com/keep?utm_source=x" _
            "^https://example\.com/keep").
  - vm_compute. reflexivity.
  - reflexivity.
  - vm_compute. reflexivity.
  - simpl. left. reflexivity.
  - vm_compute. reflexivity.
Defined.

(** C1, as stated, fails when the first group is present but empty: the
    second redirection pattern of [go_redirect] matches the URL with
    group 1 equal to the empty string, the routine takes no redirect and
    goes on to rebuild the URL, while the call on the decoded target (the
    empty string) returns the empty string. *)
Lemma redirect_empty_group_counterexample :
  (exists mo,
      re_match "^https://go\.example/\?u=(.*)" "https://go.example/?u=" IGNORECASE
        = Ok (Some mo)
      /\ group mo 1 = Ok (Some ""))
  /\ prefix_matches (urlPattern go_redirect) "https://go.example/?u=" = true
  /\ clean_url "https://go.example/?u=" redirect_rules true
     = Ok (PStr "https://go.example/")
  /\ clean_url (unquote "") redirect_rules false = Ok (PStr "")
  /\ clean_url "https://go.example/?u=" redirect_rules true
     <> clean_url (unquote "") redirect_rules false.
Proof.
  split; [eexists; split; vm_compute; reflexivity|].
  repeat split; try (vm_compute; reflexivity).
  vm_compute. discriminate.
Qed.

Lemma redirect_returns_inner_result_witness :
  clean_url
    "https://go.example/?u=https%3A%2F%2Fexample.com%2Fa%3Futm_source%3Dx%26id%3D1"
    redirect_rules true
  = clean_url
      (unquote "https%3A%2F%2Fexample.com%2Fa%3Futm_source%3Dx%26id%3D1")
      redirect_rules false.
Proof.
  eapply (redirect_returns_inner_result redirect_rules
            [("example", example_com)] "go" go_redirect []
            "https://go.example/?u=https%3A%2F%2Fexample.com%2Fa%3Futm_source%3Dx%26id%3D1"
            "https://go.example/?u=https%3A%2F%2Fexample.com%2Fa%3Futm_source%3Dx%26id%3D1"
            _ ["^https://go\.example/plain"] "^https://go\.example/\?u=(.*)" []).
  - reflexivity.
  - vm_compute. reflexivity.
  - vm_compute. reflexivity.
  - reflexivity.
  - vm_compute. reflexivity.
  - reflexivity.
  - constructor; [vm_compute; reflexivity | constructor].
  - vm_compute. reflexivity.
  - vm_compute. reflexivity.
  - discriminate.
Defined.

(** C7, as stated, fails when a later redirection pattern of the provider
    matches the target of an earlier one: with [loop = False] the first
    pattern sets the URL to its target, and the second pattern, tried on
    that target, sets it again; the query step runs on the second target,
    not on the first. *)
Lemma redirect_inside_hop_counterexample :
  (exists mo,
      re_match "^https://go\.example/\?u=(.*)"
        "https://go.example/?u=https://mid.example/?v=https://end.example/a" IGNORECASE
        = Ok (Some mo)
      /\ group mo 1 = Ok (Some "https://mid.example/?v=https://end.example/a"))
  /\ for_redirections no_self false (redirections two_hops)
       "https://go.example/?u=https://mid.example/?v=https://end.example/a"
     = Ok (Continue "https://end.example/a")
  /\ provider_step no_self false two_hops
       "https://go.example/?u=https://mid.example/?v=https://end.example/a"
     = Ok (Continue "https://end.example/a")
  /\ after_redirections two_hops
       (unquote "https://mid.example/?v=https://end.example/a")
     = Ok (Continue "https://mid.example/?v=https%3A%2F%2Fend.example%2Fa")
  /\ provider_step no_self false two_hops
       "https://go.example/?u=https://mid.example/?v=https://end.example/a"
     <> after_redirections two_hops
          (unquote "https://mid.example/?v=https://end.example/a").
Proof.
  split; [eexists; split; vm_compute; reflexivity|].
  repeat split; try (vm_compute; reflexivity).
  vm_compute. discriminate.
Qed.

Lemma redirect_inside_hop_replaces_url_witness :
  for_redirections no_self false (redirections two_hops)
    "https://go.example/?u=https://mid.example/?v=https://end.example/a"
  = for_redirections no_self false ["^https://mid\.example/\?v=(.*)"]
      (unquote "https://mid.example/?v=https://end.example/a")
  /\ (forall final,
        for_redirections no_self false ["^https://mid\.example/\?v=(.*)"]
          (unquote "https://mid.example/?v=https://end.example/a")
        = Ok (Continue final) ->
        provider_step no_self false two_hops
          "https://go.example/?u=https://mid.example/?v=https://end.example/a"
        = after_redirections two_hops final).
Proof.
  eapply (redirect_inside_hop_replaces_url no_self two_hops
            "https://go.example/?u=https://mid.example/?v=https://end.example/a"
            _ [] "^https://go\.example/\?u=(.*)" ["^https://mid\.example/\?v=(.*)"]).
  - vm_compute. reflexivity.
  - reflexivity.
  - vm_compute. reflexivity.
  - reflexivity.
  - constructor.
  - vm_compute. reflexivity.
  - vm_compute. reflexivity.
  - discriminate.
Defined.

(** C8, as stated, fails on a raw rule: the rule [utm] removes the pair
    [utm=1], and the raw rule [X], applied to the rebuilt URL, turns the
    key [uXtm] of the pair that was kept into [utm]. *)
Lemma raw_rule_reintroduces_key_counterexample :
  (exists parsed,
      urlparse "https://x/?utm=1&uXtm=2" = Some parsed
      /\ In ("utm", "1") (parse_qsl (query parsed)))
  /\ In "utm" (rules raw_X)
  /\ prefix_matches "utm" "utm" = true
  /\ clean_url "https://x/?utm=1&uXtm=2" raw_X_rules true
     = Ok (PStr "https://x/?utm=2")
  /\ (exists parsed',
        urlparse "https://x/?utm=2" = Some parsed'
        /\ In ("utm", "2") (parse_qsl (query parsed'))).
Proof.
  split; [eexists; split; [vm_compute; reflexivity | vm_compute; auto]|].
  split; [vm_compute; auto|].
  split; [vm_compute; reflexivity|].
  split; [vm_compute; reflexivity|].
  eexists; split; [vm_compute; reflexivity | vm_compute; auto].
Qed.

Lemma removed_pairs_stay_out_of_query_witness :
  clean_query raw_X "https://x/?utm=1&uXtm=2"
  = Ok (urlunparse
          (with_query (mkParseResult "https" "x" "/" "" "utm=1&uXtm=2" "")
             (urlencode [("uXtm", "2")])))
  /\ (forall rule key value,
        In rule (rules raw_X ++ referralMarketing raw_X) ->
        prefix_matches rule key = true ->
        ~ In (key, value) [("uXtm", "2")])
  /\ (exists mid,
        for_rules (rules raw_X)
          (parse_qsl (query (mkParseResult "https" "x" "/" "" "utm=1&uXtm=2" "")))
        = Ok mid
        /\ for_rules (referralMarketing raw_X) mid = Ok [("uXtm", "2")]
        /\ forall param, In param [("uXtm", "2")] -> In param mid).
Proof.
  apply (removed_pairs_stay_out_of_query raw_X "https://x/?utm=1&uXtm=2"
           (mkParseResult "https" "x" "/" "" "utm=1&uXtm=2" "") [("uXtm", "2")]).
  - vm_compute. reflexivity.
  - vm_compute. reflexivity.
Defined.

(** C6, as stated, fails on a URL whose query is not in the form
    [urlencode] writes: a provider without any pattern still parses the
    URL and rebuilds it, and the escape [%20] comes back as [+]. *)
Lemma empty_provider_counterexample :
  prefix_matches (urlPattern no_rules) "https://example.com/?q=a%20b" = true
  /\ (exceptions no_rules ++ redirections no_rules ++ rules no_rules
        ++ referralMarketing no_rules ++ rawRules no_rules)%list = []
  /\ provider_step no_self true no_rules "https://example.com/?q=a%20b"
     = Ok (Continue "https://example.com/?q=a+b")
  /\ provider_step no_self true no_rules "https://example.com/?q=a%20b"
     <> Ok (Continue "https://example.com/?q=a%20b").
Proof.
  repeat split; try (vm_compute; reflexivity).
  vm_compute. discriminate.
Qed.

Lemma empty_provider_reencodes_witness :
  let parsed := mkParseResult "https" "example.com" "/" "" "q=a%20b" "" in
  let rebuilt :=
    urlunparse (with_query parsed (urlencode (parse_qsl (query parsed)))) in
  provider_step no_self true no_rules "https://example.com/?q=a%20b"
    = Ok (Continue rebuilt)
  /\ (rebuilt = "https://example.com/?q=a%20b" ->
      provider_step no_self true no_rules "https://example.com/?q=a%20b"
      = Ok (Continue "https://example.com/?q=a%20b")).
Proof.
  eapply (empty_provider_reencodes no_self true no_rules
            "https://example.com/?q=a%20b" _
            (mkParseResult "https" "example.com" "/" "" "q=a%20b" ""));
    vm_compute; reflexivity.
Defined.

(** C5, as stated, fails on a URL whose authority has an unbalanced
    bracket: every pattern of the document compiles, the provider
    matches, and [urlparse] raises ValueError, which nothing catches. *)
Lemma unbalanced_bracket_counterexample :
  rules_compile http_rules = true
  /\ clean_url "http://[" http_rules true = Raise ValueError
  /\ ~ (exists v, clean_url "http://[" http_rules true = Ok v).
Proof.
  split; [vm_compute; reflexivity|].
  split; [vm_compute; reflexivity|].
  intros [v H]. vm_compute in H. discriminate.
Qed.

Lemma clean_url_completes_witness :
  (exists v, clean_url "https://go.example/plain?a=1" redirect_rules true = Ok v)
  /\ (forall self redir rest current mo,
        re_match redir current IGNORECASE = Ok (Some mo) ->
        group mo 1 = Raise IndexError ->
        for_redirections self true (redir :: rest) current
        = for_redirections self true rest current).
Proof.
  apply (clean_url_completes "https://go.example/plain?a=1" redirect_rules true).
  - vm_compute. reflexivity.
  - vm_compute. discriminate.
Defined.

(** C4, as stated, fails on a raw rule: removing [ab] from [aabb] leaves
    [ab], which the second pass removes. *)
Lemma raw_rule_second_pass_counterexample :
  clean_url "https://x/aabb" raw_ab_rules true = Ok (PStr "https://x/ab")
  /\ clean_url "https://x/ab" raw_ab_rules true = Ok (PStr "https://x/")
  /\ clean_url "https://x/ab" raw_ab_rules true <> Ok (PStr "https://x/ab").
Proof.
  repeat split; try (vm_compute; reflexivity).
  vm_compute. discriminate.
Qed.

(** A second pass also changes the result when an earlier provider only
    matches what a later provider has produced. *)
Example two_providers_second_pass :
  clean_url "https://x/?utm=1&id=2" two_provider_rules true
    = Ok (PStr "https://x/?id=2")
  /\ clean_url "https://x/?id=2" two_provider_rules true = Ok (PStr "https://x/").
Proof. split; vm_compute; reflexivity. Qed.

Lemma single_provider_second_pass_witness :
  clean_url "https://example.com/a?id=1&id=2" example_rules true
    = Ok (PStr "https://example.com/a?id=1&id=2")
  /\ (clean_url example_url example_rules true = Ok PFalse ->
      clean_url example_url example_rules true = Ok PFalse).
Proof.
  apply (single_provider_second_pass example_rules "example" example_com
           example_url "https://example.com/a?id=1&id=2").
  - reflexivity.
  - reflexivity.
  - reflexivity.
  - vm_compute. reflexivity.
  - intros parsed kept Hp Hk.
    vm_compute in Hp. injection Hp as <-.
    vm_compute in Hk. injection Hk as <-.
    split; vm_compute; reflexivity.
Defined.

(** *** With the model of [urllib.parse], on URLs with an authority *)

Lemma kept_values_nonempty rs (qs : string) kept :
  for_rules rs (parse_qsl qs) = Ok kept ->
  Forall (fun kv => snd kv <> EmptyString) kept.
Proof.
  intros H. rewrite (for_rules_Ok _ _ _ H).
  pose proof (UrlLibFacts.parse_qsl_values qs) as Hall.
  rewrite Forall_forall in *. intros kv Hin.
  apply kept_params_In in Hin as [Hin _]. apply Hall, Hin.
Qed.

(** X18: on a URL with an authority, as every [http://host...] URL is, the
    model of [urllib.parse] reads the rebuilt URL back into the components
    it was built from: the rebuilt URL has the scheme, netloc, path, params
    and fragment of the URL before the step, and the encoding of the kept
    pairs as its query.  Without an authority [urlunsplit] may write the
    path differently (a relative path under [http:] comes back rooted), and
    the hypothesis cannot be dropped. *)
Theorem rebuilt_url_parses_to_same_frame provider url parsed url1 :
  urlparse url = Some parsed ->
  netloc parsed <> EmptyString ->
  clean_query provider url = Ok url1 ->
  exists kept,
    for_rules (rules provider ++ referralMarketing provider)
      (parse_qsl (query parsed)) = Ok kept
    /\ urlparse url1 = Some (with_query parsed (urlencode kept))
    /\ same_frame (with_query parsed (urlencode kept)) parsed.
Proof.
  intros Hp Hne H.
  destruct (clean_query_inv _ _ _ _ Hp H) as [kept [Hk ->]].
  exists kept. split; [exact Hk|]. split; [|repeat split].
  apply (UrlLibFacts.urlparse_urlunparse url parsed _ Hp Hne).
  apply UrlLibFacts.urlencode_query_ok.
Qed.

(** X19: with the model of [urllib.parse], a rules document with a single
    provider that has neither redirections nor raw rules is idempotent on
    every URL with an authority. *)
Theorem second_pass_with_authority ruleset name provider url c :
  providers ruleset = Some [(name, provider)] ->
  redirections provider = [] ->
  rawRules provider = [] ->
  (forall parsed, urlparse url = Some parsed -> netloc parsed <> EmptyString) ->
  clean_url url ruleset true = Ok (PStr c) ->
  clean_url c ruleset true = Ok (PStr c).
Proof.
  intros Hps Hr Hraw Hauth Hrun.
  apply (second_pass_same ruleset name provider url c Hps Hr Hraw Hrun).
  intros parsed kept Hp Hk. split.
  - apply (UrlLibFacts.urlparse_urlunparse url parsed _ Hp (Hauth _ Hp)).
    apply UrlLibFacts.urlencode_query_ok.
  - apply UrlLibFacts.parse_qsl_urlencode.
    apply (kept_values_nonempty _ _ _ Hk).
Qed.

End Concrete.

(** ** Further properties of [clean_url], over any implementation of the library *)

Section MoreProperties.

Context {L : PyLib}.

Implicit Types (self : string -> result value) (loop : bool).
Implicit Types (provider : Provider) (url current target : string).
Implicit Types (pre post : list (string * Provider)).

Lemma provider_step_no_match self loop provider url :
  re_match (urlPattern provider) url IGNORECASE = Ok None ->
  provider_step self loop provider url = Ok (Continue url).
Proof.
  intros H. unfold provider_step. rewrite H. reflexivity.
Qed.

Lemma clean_url_unmatched url ruleset loop :
  Forall (fun item => re_match (urlPattern (snd item)) url IGNORECASE = Ok None)
    (providers_items ruleset) ->
  clean_url url ruleset loop = Ok (PStr url).
Proof.
  unfold clean_url. generalize (fun target => clean_url_no_loop target ruleset).
  intros self H. induction H as [|[name provider] rest Hp _ IH]; [reflexivity|].
  simpl in *. rewrite (provider_step_no_match _ _ _ _ Hp). exact IH.
Qed.

(** X1: when every provider's urlPattern compiles and none matches a
    prefix of the URL, the call returns the URL itself, character for
    character: the URL is neither parsed nor rebuilt. *)
Theorem unmatched_url_is_returned_as_is url ruleset loop :
  Forall (fun item => re_match (urlPattern (snd item)) url IGNORECASE = Ok None)
    (providers_items ruleset) ->
  clean_url url ruleset loop = Ok (PStr url).
Proof. apply clean_url_unmatched. Qed.

Lemma for_redirections_returns self loop redirs url v :
  for_redirections self loop redirs url = Ok (Return v) ->
  exists target, self target = Ok v.
Proof.
  revert url; induction redirs as [|redir rest IH]; simpl; intros url H; [discriminate|].
  destruct (re_match redir url IGNORECASE) as [m|e]; simpl in H; [|discriminate].
  destruct m as [mo|]; simpl in H; [|apply (IH _ H)].
  unfold group in H.
  destruct (nth_error (groups mo) 1) as [g|]; simpl in H; [|apply (IH _ H)].
  destruct (truthy g); simpl in H; [|apply (IH _ H)].
  destruct loop; simpl in H; [|apply (IH _ H)].
  destruct (self (unquote (str_of g))) as [v'|[]] eqn:E; simpl in H;
    try discriminate; try apply (IH _ H).
  injection H as <-. eauto.
Qed.

Lemma for_providers_not_blocked self loop ps url :
  (forall target, self target <> Ok PFalse) ->
  Forall (fun item => completeProvider (snd item) = false) ps ->
  for_providers self loop ps url <> Ok PFalse.
Proof.
  intros Hself H. revert url.
  induction H as [|[name provider] rest Hp _ IH]; intros url; simpl; [discriminate|].
  simpl in Hp. unfold provider_step. rewrite Hp.
  destruct (re_match (urlPattern provider) url IGNORECASE) as [m|e]; simpl; [|discriminate].
  destruct (is_match m); simpl; [|apply IH].
  destruct (any_exception (exceptions provider) url) as [[|]|e]; simpl;
    [apply IH | | discriminate].
  destruct (for_redirections self loop (redirections provider) url) as [[u|v]|e] eqn:Er;
    simpl; [ | | discriminate].
  - destruct (after_redirections provider u) as [[u'|v']|e] eqn:Ea; simpl;
      [apply IH | | discriminate].
    unfold after_redirections in Ea.
    destruct (clean_query provider u); simpl in Ea; [|discriminate].
    destruct (for_raw_rules (rawRules provider) a); discriminate.
  - destruct (for_redirections_returns _ _ _ _ _ Er) as [target Ht].
    intros [= ->]. exact (Hself _ Ht).
Qed.

(** X2: a rules document without any complete provider never blocks: the
    call does not return False, whatever the URL and whether or not a
    redirect is followed. *)
Theorem never_blocked_without_complete_provider url ruleset loop :
  Forall (fun item => completeProvider (snd item) = false) (providers_items ruleset) ->
  clean_url url ruleset loop <> Ok PFalse.
Proof.
  intros H. unfold clean_url. apply for_providers_not_blocked; [|exact H].
  intros target. unfold clean_url_no_loop.
  rewrite (for_providers_no_loop _ (fun _ => Raise re_error)).
  apply for_providers_not_blocked; [discriminate | exact H].
Qed.

(** X3: no IndexError ever leaves the call, whatever the URL and the
    rules document, compiled or not: the one place that can raise it, the
    first group of a redirection match, is inside the try block. *)
Theorem index_error_never_escapes url ruleset loop :
  clean_url url ruleset loop <> Raise IndexError.
Proof. apply no_IndexError_clean_url. Qed.

(** X4: patterns are compiled when they are used, so a provider whose
    urlPattern does not compile ends with re.error every call that reaches
    it, whatever the URL. *)
Theorem bad_url_pattern_fails_every_call
  ruleset loop pre name provider post url current :
  providers_items ruleset = (pre ++ (name, provider) :: post)%list ->
  run_providers (fun target => clean_url target ruleset false) loop pre url
    = Ok (Continue current) ->
  compiles (urlPattern provider) IGNORECASE = false ->
  clean_url url ruleset loop = Raise re_error.
Proof.
  intros Hps Hreach Hc.
  rewrite clean_url_unfold, Hps, (for_providers_reach _ _ _ _ _ _ Hreach).
  simpl. unfold provider_step, re_match. unfold compiles in Hc.
  destruct (re_compile (urlPattern provider) IGNORECASE); [discriminate | reflexivity].
Qed.

Lemma for_rules_nil rs : for_rules rs [] = Ok [].
Proof. induction rs as [|r rest IH]; simpl; auto. Qed.

Lemma keep_params_bad_rule rule param rest :
  compiles rule IGNORECASE = false ->
  keep_params rule (param :: rest) = Raise re_error.
Proof.
  unfold compiles. simpl. unfold re_match.
  destruct (re_compile rule IGNORECASE); [discriminate | reflexivity].
Qed.

(** X5: the rule patterns are only compiled against query pairs.  On a
    URL whose query has no pair, the query step succeeds whatever the rule
    patterns are, even if none compiles; with at least one pair, a first
    rule that does not compile raises re.error. *)
Theorem rules_are_compiled_only_against_pairs provider url parsed :
  urlparse url = Some parsed ->
  (parse_qsl (query parsed) = [] ->
   clean_query provider url = Ok (urlunparse (with_query parsed (urlencode []))))
  /\ (forall rule rest,
        (rules provider ++ referralMarketing provider)%list = rule :: rest ->
        compiles rule IGNORECASE = false ->
        parse_qsl (query parsed) <> [] ->
        clean_query provider url = Raise re_error).
Proof.
  intros Hp. split.
  - intros Hq. apply clean_query_Ok; [exact Hp|]. rewrite Hq. apply for_rules_nil.
  - intros rule rest Hrs Hc Hq.
    unfold clean_query, urlparse_exn. rewrite Hp, Hrs. simpl.
    destruct (parse_qsl (query parsed)) as [|param ps]; [congruence|].
    rewrite (keep_params_bad_rule _ _ _ Hc). reflexivity.
Qed.

Lemma existsb_permutation (A : Type) (f : A -> bool) (l l' : list A) :
  Permutation l l' -> existsb f l = existsb f l'.
Proof.
  induction 1 as [|x l l' _ IH|x y l|l l' l'' _ IH1 _ IH2]; simpl.
  - reflexivity.
  - rewrite IH. reflexivity.
  - destruct (f x), (f y); reflexivity.
  - congruence.
Qed.

Lemma forallb_permutation (A : Type) (f : A -> bool) (l l' : list A) :
  Permutation l l' -> forallb f l = forallb f l'.
Proof.
  induction 1 as [|x l l' _ IH|x y l|l l' l'' _ IH1 _ IH2]; simpl.
  - reflexivity.
  - rewrite IH. reflexivity.
  - destruct (f x), (f y); reflexivity.
  - congruence.
Qed.

(** X6: the order of the patterns within a provider's rules and
    referralMarketing lists does not matter: when they all compile, any
    rearrangement of them keeps the same query pairs, in the same order. *)
Theorem rule_order_is_irrelevant rs rs' query_params :
  Permutation rs rs' ->
  forallb (fun x => compiles x IGNORECASE) rs = true ->
  for_rules rs query_params = for_rules rs' query_params.
Proof.
  intros Hperm Hc.
  rewrite (for_rules_compiles rs query_params Hc).
  rewrite (for_rules_compiles rs' query_params)
    by (rewrite <- (forallb_permutation _ _ _ _ Hperm); exact Hc).
  f_equal. unfold kept_params. apply filter_ext. intros param.
  rewrite (existsb_permutation _ _ _ _ Hperm). reflexivity.
Qed.

Lemma for_providers_loop_irrelevant self self' loop loop' ps url :
  Forall (fun item => redirections (snd item) = []) ps ->
  for_providers self loop ps url = for_providers self' loop' ps url.
Proof.
  intros H. revert url.
  induction H as [|[name provider] rest Hp _ IH]; intros url; simpl; [reflexivity|].
  simpl in Hp. unfold provider_step. rewrite Hp. simpl.
  destruct (re_match (urlPattern provider) url IGNORECASE) as [m|e]; simpl; [|reflexivity].
  destruct (negb (is_match m)); [apply IH|].
  destruct (completeProvider provider); [reflexivity|].
  destruct (any_exception (exceptions provider) url) as [[|]|e]; simpl;
    [apply IH | | reflexivity].
  destruct (after_redirections provider url) as [[u|v]|e]; simpl;
    [apply IH | reflexivity | reflexivity].
Qed.

(** X7: the [loop] argument only matters through redirections: for a
    rules document in which no provider has a redirection pattern, the
    call with [loop = True] and the call with [loop = False] give the same
    result. *)
Theorem loop_flag_only_matters_for_redirections url ruleset :
  Forall (fun item => redirections (snd item) = []) (providers_items ruleset) ->
  clean_url url ruleset true = clean_url url ruleset false.
Proof.
  intros H. unfold clean_url. apply for_providers_loop_irrelevant, H.
Qed.

Lemma provider_step_false_blocks self provider url v :
  provider_step self false provider url = Ok (Return v) -> v = PFalse.
Proof.
  unfold provider_step.
  destruct (re_match (urlPattern provider) url IGNORECASE) as [m|e]; simpl; [|discriminate].
  destruct (negb (is_match m)); [discriminate|].
  destruct (completeProvider provider); [intros [= <-]; reflexivity|].
  destruct (any_exception (exceptions provider) url) as [[|]|e]; simpl; try discriminate.
  destruct (for_redirections self false (redirections provider) url) as [[u|v']|e] eqn:Er;
    simpl; try discriminate.
  - unfold after_redirections.
    destruct (clean_query provider u); simpl; [|discriminate].
    destruct (for_raw_rules (rawRules provider) a); discriminate.
  - destruct (for_redirections_false_continues _ _ _ _ Er).
Qed.

Lemma for_providers_false_runs self ps url mid :
  for_providers self false ps url = Ok (PStr mid) ->
  run_providers self false ps url = Ok (Continue mid).
Proof.
  revert url; induction ps as [|[name provider] rest IH]; intros url; simpl.
  - intros [= <-]. reflexivity.
  - destruct (provider_step self false provider url) as [[u|v]|e] eqn:E; simpl.
    + apply IH.
    + intros [= ->]. apply provider_step_false_blocks in E. discriminate.
    + discriminate.
Qed.

(** X17: the providers are applied one after the other, each to what the
    one before it has made of the URL.  Without following redirects
    ([loop = False]), cleaning with the providers [pre] followed by the
    providers [post] is cleaning with [post] the URL that cleaning with
    [pre] returns. *)
Theorem providers_apply_in_sequence pre post url mid :
  clean_url url (mkRules (Some pre)) false = Ok (PStr mid) ->
  clean_url url (mkRules (Some (pre ++ post)%list)) false
  = clean_url mid (mkRules (Some post)) false.
Proof.
  rewrite !clean_url_false. unfold clean_url_no_loop, providers_items. simpl. intros H.
  apply for_providers_reach, for_providers_false_runs, H.
Qed.

End MoreProperties.

(** ** Properties of the cog, over any implementation of its interfaces *)

Section CogProperties.

Import Cog.

Context {L : PyLib} {C : CogLib}.

Lemma scrub_links_blocked links ruleset acc :
  (forall link, In link links -> exists v, clean_url link ruleset true = Ok v) ->
  (exists link, In link links /\ clean_url link ruleset true = Ok PFalse) ->
  scrub_links links ruleset acc = Failed AttributeError.
Proof.
  revert acc; induction links as [|link rest IH]; intros acc Hall [bad [Hin Hbad]];
    [contradiction|].
  simpl. destruct (Hall link (or_introl eq_refl)) as [v Hv]. rewrite Hv.
  destruct v as [|c]; [reflexivity|].
  assert (Hrest : scrub_links rest ruleset acc = Failed AttributeError
                  /\ scrub_links rest ruleset (acc ++ [c]) = Failed AttributeError).
  { destruct Hin as [->|Hin]; [congruence|].
    split; apply IH; eauto; intros l Hl; apply Hall; right; exact Hl. }
  destruct Hrest as [H1 H2]. destruct (changed link c); assumption.
Qed.

(** X8: a message with a link that [clean_url] blocks never gets a reply.
    When the stored rules are a document, every link of the message is
    cleaned without exception and at least one of them is blocked
    ([clean_url] returns False), [on_message] ends with AttributeError, the
    False having no [lower]; nothing is sent, whatever the other links are
    and in whatever order the set lists them. *)
Theorem blocked_link_raises_AttributeError message w ruleset :
  let links := list_set (URL_PATTERN_findall (content message)) in
  author_bot message = false ->
  conf_rules w = Doc ruleset ->
  (forall link, In link links -> exists v, clean_url link ruleset true = Ok v) ->
  (exists link, In link links /\ clean_url link ruleset true = Ok PFalse) ->
  on_message message w = (w, Some AttributeError).
Proof.
  intros links Hbot Hconf Hall Hbad. unfold on_message. rewrite Hbot, Hconf.
  pose proof (scrub_links_blocked links ruleset [] Hall Hbad) as Hs.
  subst links. destruct (list_set _) as [|l0 ls]; [destruct Hbad as [bad [[] _]]|].
  rewrite Hs. reflexivity.
Qed.

Lemma scrub_links_unchanged links ruleset acc :
  (forall link, In link links ->
     exists c, clean_url link ruleset true = Ok (PStr c) /\ changed link c = false) ->
  scrub_links links ruleset acc = Done acc.
Proof.
  induction links as [|link rest IH]; intros Hall; [reflexivity|].
  simpl. destruct (Hall link (or_introl eq_refl)) as [c [-> ->]].
  apply IH. intros l Hl. apply Hall. right; exact Hl.
Qed.

(** X9: a message none of whose links is changed gets no reply and
    changes nothing.  A link counts as unchanged when, case set aside, it
    is equal to its cleaned form or to the percent-decoded cleaned form. *)
Theorem no_reply_when_nothing_changes message w ruleset :
  conf_rules w = Doc ruleset ->
  (forall link, In link (list_set (URL_PATTERN_findall (content message))) ->
     exists c, clean_url link ruleset true = Ok (PStr c) /\ changed link c = false) ->
  on_message message w = (w, None).
Proof.
  intros Hconf Hall. unfold on_message. rewrite Hconf.
  pose proof (scrub_links_unchanged _ ruleset [] Hall) as Hs.
  destruct (author_bot message); [reflexivity|].
  destruct (list_set _) as [|l0 ls]; [reflexivity|].
  rewrite Hs. reflexivity.
Qed.

Lemma scrub_links_Done links ruleset acc cleaned :
  scrub_links links ruleset acc = Done cleaned ->
  exists added,
    cleaned = (acc ++ added)%list
    /\ forall c, In c added ->
         exists link, In link links
                      /\ clean_url link ruleset true = Ok (PStr c)
                      /\ changed link c = true.
Proof.
  revert acc; induction links as [|link rest IH]; simpl; intros acc H.
  - injection H as <-. exists []. rewrite app_nil_r. split; [reflexivity|]. intros c [].
  - destruct (clean_url link ruleset true) as [[|c0]|e] eqn:Hc; try discriminate.
    destruct (changed link c0) eqn:Hch.
    + destruct (IH _ H) as [added [-> Hadded]].
      exists (c0 :: added). rewrite <- app_assoc. split; [reflexivity|].
      intros c [<-|Hin].
      * exists link. auto.
      * destruct (Hadded c Hin) as [l [Hl Hrest]]. exists l. auto.
    + destruct (IH _ H) as [added [-> Hadded]].
      exists added. split; [reflexivity|].
      intros c Hin. destruct (Hadded c Hin) as [l [Hl Hrest]]. exists l. auto.
Qed.

(** X10: what [on_message] does when it ends normally.  It never touches
    the configuration or the sessions, and it sends at most one message:
    either nothing, or the reply built from a non-empty list of cleaned
    links, each of which is the result of [clean_url] on a link found in
    the message that the cleaning changed.  The set is assumed to list
    only elements of the list it was built from. *)
Theorem on_message_reports_only_changed_links message w w' ruleset :
  (forall l x, In x (list_set l) -> In x l) ->
  conf_rules w = Doc ruleset ->
  on_message message w = (w', None) ->
  conf_rules w' = conf_rules w /\ conf_url w' = conf_url w
  /\ open_sessions w' = open_sessions w
  /\ (sent w' = sent w
      \/ exists cleaned,
           cleaned <> []
           /\ sent w' = (sent w ++ [response cleaned])%list
           /\ forall c, In c cleaned ->
                exists link, In link (URL_PATTERN_findall (content message))
                             /\ clean_url link ruleset true = Ok (PStr c)
                             /\ changed link c = true).
Proof.
  intros Hset Hconf. unfold on_message. rewrite Hconf.
  destruct (author_bot message); [intros [= <-]; auto|].
  destruct (list_set (URL_PATTERN_findall (content message))) as [|l0 ls] eqn:El;
    [intros [= <-]; auto|].
  destruct (scrub_links (l0 :: ls) ruleset []) as [cleaned|e] eqn:Es; [|discriminate].
  destruct (scrub_links_Done _ _ _ _ Es) as [added [Hcl Hadded]]. simpl in Hcl. subst added.
  destruct cleaned as [|c0 cs]; intros [= <-]; [auto|].
  split; [exact Hconf|]. split; [reflexivity|]. split; [reflexivity|].
  right. exists (c0 :: cs). split; [discriminate|]. split; [reflexivity|].
  intros c Hin. destruct (Hadded c Hin) as [link [Hl Hrest]].
  exists link. split; [|exact Hrest]. apply Hset. rewrite El. exact Hl.
Qed.

Lemma changed_same link : changed link link = false.
Proof. unfold changed. rewrite String.eqb_refl. reflexivity. Qed.

(** X15: a message whose links match no provider gets no reply.  When
    the stored rules are a document whose urlPatterns all compile and none
    of them matches a prefix of any link of the message, [on_message]
    sends nothing and changes nothing. *)
Theorem no_reply_for_unmatched_links message w ruleset :
  conf_rules w = Doc ruleset ->
  (forall link, In link (list_set (URL_PATTERN_findall (content message))) ->
     Forall (fun item => re_match (urlPattern (snd item)) link IGNORECASE = Ok None)
       (providers_items ruleset)) ->
  on_message message w = (w, None).
Proof.
  intros Hconf Hall. unfold on_message. rewrite Hconf.
  destruct (author_bot message); [reflexivity|].
  assert (Hs : scrub_links (list_set (URL_PATTERN_findall (content message))) ruleset []
               = Done []).
  { apply scrub_links_unchanged. intros link Hin. exists link.
    split; [apply clean_url_unmatched, Hall, Hin | apply changed_same]. }
  destruct (list_set _) as [|l0 ls]; [reflexivity|].
  rewrite Hs. reflexivity.
Qed.

Lemma opt_eqb_eq a b : opt_eqb a b = true <-> a = b.
Proof.
  destruct a as [x|], b as [y|]; simpl; try (split; congruence).
  rewrite String.eqb_eq. split; congruence.
Qed.

Lemma failed_update_keeps_configuration_aux url w :
  download (if truthy url then url else conf_url w) = None ->
  conf_rules (scrub_update url w) = conf_rules w
  /\ conf_url (scrub_update url w) = conf_url w
  /\ open_sessions (scrub_update url w) = S (open_sessions w)
  /\ sent (scrub_update url w)
     = (sent w ++ ["Rules update failed (see log for details)"])%list.
Proof.
  intros Hd. unfold scrub_update, update. rewrite Hd. repeat split.
Qed.

(** X11: a failed update changes neither stored value and leaves a
    session open.  When the download from the URL in use (the argument if
    it is a non-empty string, the stored URL otherwise) raises,
    [scrub_update] keeps the stored rules and the stored URL, reports the
    failure, and the session [update] opened is not closed. *)
Theorem failed_update_keeps_configuration url w :
  download (if truthy url then url else conf_url w) = None ->
  let w' := scrub_update url w in
  conf_rules w' = conf_rules w
  /\ conf_url w' = conf_url w
  /\ open_sessions w' = S (open_sessions w)
  /\ sent w' = (sent w ++ ["Rules update failed (see log for details)"])%list.
Proof.
  intros Hd. apply failed_update_keeps_configuration_aux, Hd.
Qed.

Lemma successful_update_stores_rules_and_url_aux url w doc :
  download (if truthy url then url else conf_url w) = Some doc ->
  conf_rules (scrub_update url w) = doc
  /\ conf_url (scrub_update url w) = (if truthy url then url else conf_url w)
  /\ open_sessions (scrub_update url w) = open_sessions w
  /\ sent (scrub_update url w) = (sent w ++ ["Rules updated"])%list.
Proof.
  set (used := if truthy url then url else conf_url w).
  intros Hd. unfold scrub_update, update. fold used. rewrite Hd.
  destruct (opt_eqb used (conf_url w)) eqn:E; simpl.
  - apply opt_eqb_eq in E. rewrite Nat.sub_0_r. repeat split. symmetry; exact E.
  - rewrite Nat.sub_0_r. repeat split.
    unfold used in *. destruct (truthy url); [reflexivity|].
    assert (H : opt_eqb (conf_url w) (conf_url w) = true) by (apply opt_eqb_eq; reflexivity).
    congruence.
Qed.

(** X12: after a successful update the stored URL is the URL the rules
    came from.  When the download from the URL in use succeeds,
    [scrub_update] stores the document, the stored URL becomes (or stays)
    the URL in use, every session opened is closed, and the success is
    reported. *)
Theorem successful_update_stores_rules_and_url url w doc :
  let used := if truthy url then url else conf_url w in
  download used = Some doc ->
  let w' := scrub_update url w in
  conf_rules w' = doc
  /\ conf_url w' = used
  /\ open_sessions w' = open_sessions w
  /\ sent w' = (sent w ++ ["Rules updated"])%list.
Proof.
  intros used Hd. apply successful_update_stores_rules_and_url_aux, Hd.
Qed.

(** X13: the stored URL stays usable.  If the stored URL is a non-empty
    string, it is still one after [scrub_update], whatever the argument
    and whether the download succeeds or not: the command never stores
    None or the empty string. *)
Theorem stored_url_stays_nonempty url w :
  truthy (conf_url w) = true ->
  truthy (conf_url (scrub_update url w)) = true.
Proof.
  intros H.
  destruct (download (if truthy url then url else conf_url w)) as [doc|] eqn:Hd.
  - destruct (successful_update_stores_rules_and_url_aux url w doc Hd) as [_ [-> _]].
    destruct (truthy url) eqn:Hu; assumption.
  - destruct (failed_update_keeps_configuration_aux url w Hd) as [_ [-> _]]. exact H.
Qed.

(** X14: with the default configuration, in which no rules are stored, a
    message with a link ends [on_message] with TypeError, [update] being
    called without its argument; and it still does after a [scrub_update]
    whose download failed. *)
Theorem no_stored_rules_raises_TypeError message url w :
  author_bot message = false ->
  list_set (URL_PATTERN_findall (content message)) <> [] ->
  conf_rules w = EmptyDict ->
  on_message message w = (w, Some TypeError)
  /\ (download (if truthy url then url else conf_url w) = None ->
      on_message message (scrub_update url w) = (scrub_update url w, Some TypeError)).
Proof.
  intros Hbot Hlinks Hconf.
  assert (Hgen : forall w0, conf_rules w0 = EmptyDict ->
                            on_message message w0 = (w0, Some TypeError)).
  { intros w0 H0. unfold on_message. rewrite Hbot, H0.
    destruct (list_set _); [congruence | reflexivity]. }
  split; [apply Hgen, Hconf|].
  intros Hd. apply Hgen.
  destruct (failed_update_keeps_configuration_aux url w Hd) as [-> _]. exact Hconf.
Qed.

End CogProperties.

(** ** Facts about the model of [re] and the links of a message *)

Module ReFacts.

Import Re.
Import ReFind.

Lemma URL_PATTERN_compiled :
  URL_PATTERN = Some url_pattern.
Proof. vm_compute. reflexivity. Qed.

Lemma one_char_Some ok k p r c s' :
  one_char ok k (mkState p r c) = Some s' ->
  exists x r1, r = x :: r1 /\ ok x = true /\ k (mkState (S p) r1 c) = Some s'.
Proof.
  unfold one_char, advance. simpl. destruct r as [|x r1]; [discriminate|].
  destruct (ok x) eqn:E; [|discriminate]. simpl. eauto.
Qed.

Lemma rmatch_Chr_Some a k p r c s' :
  rmatch false (Chr a) k (mkState p r c) = Some s' ->
  exists r1, r = a :: r1 /\ k (mkState (S p) r1 c) = Some s'.
Proof.
  intros H. apply one_char_Some in H as [x [r1 [-> [Hx H]]]].
  unfold chr_match in Hx. apply Ascii.eqb_eq in Hx as <-. eauto.
Qed.

Lemma star_loop_Some ci neg items k c s' :
  forall fuel p r,
    (fix iter (fuel : nat) (s0 : mstate) {struct fuel} : option mstate :=
       match fuel with
       | O => k s0
       | S f =>
           match
             one_char (cls_match ci neg items)
               (fun s1 => if (pos s0 <? pos s1)%nat then iter f s1 else None) s0
           with
           | Some s' => Some s'
           | None => k s0
           end
       end) fuel (mkState p r c) = Some s' ->
    exists body r1,
      r = (body ++ r1)%list
      /\ Forall (fun x => cls_match ci neg items x = true) body
      /\ k (mkState (p + length body) r1 c) = Some s'.
Proof.
  induction fuel as [|f IH]; intros p r H.
  - exists [], r. rewrite Nat.add_0_r. auto.
  - match type of H with
    | match ?m with _ => _ end = _ => destruct m as [s1|] eqn:E
    end.
    + injection H as <-.
      apply one_char_Some in E as [x [r1 [-> [Hx E]]]].
      cbn [pos] in E.
      replace (p <? S p)%nat with true in E by (symmetry; apply Nat.ltb_lt; lia).
      destruct (IH _ _ E) as [body [r2 [-> [Hall Hk]]]].
      exists (x :: body), r2. split; [reflexivity|]. split; [constructor; assumption|].
      simpl length. rewrite Nat.add_succ_r. exact Hk.
    + exists [], r. rewrite Nat.add_0_r. auto.
Qed.

(** A greedy repetition of a character set consumes characters of the
    set, and goes on with what follows it. *)
Lemma rmatch_Star_Cls_Some ci neg items k p r c s' :
  rmatch ci (Star true (Cls neg items)) k (mkState p r c) = Some s' ->
  exists body r1,
    r = (body ++ r1)%list
    /\ Forall (fun x => cls_match ci neg items x = true) body
    /\ k (mkState (p + length body) r1 c) = Some s'.
Proof.
  intros H. apply (star_loop_Some ci neg items k c s' (S (length r))). exact H.
Qed.

Lemma rmatch_Seq ci r1 r2 k s :
  rmatch ci (Seq r1 r2) k s = rmatch ci r1 (rmatch ci r2 k) s.
Proof. reflexivity. Qed.

Lemma rmatch_Alt_Some ci r1 r2 k s s' :
  rmatch ci (Alt r1 r2) k s = Some s' ->
  rmatch ci r1 k s = Some s' \/ rmatch ci r2 k s = Some s'.
Proof.
  cbn [rmatch]. destruct (rmatch ci r1 k s); intros H; [left|right]; exact H.
Qed.

Lemma firstn_length_app (a b : list ascii) : firstn (length a) (a ++ b)%list = a.
Proof. induction a as [|x a IH]; simpl; [reflexivity|]. rewrite IH. reflexivity. Qed.

Lemma not_space_class x :
  cls_match false false [CSpace true] x = true -> not_space x.
Proof.
  unfold cls_match, not_space. simpl. destruct (is_space x); [discriminate|reflexivity].
Qed.

(** What follows the scheme: [://] and one or more characters that are
    no white space. *)
Lemma url_tail_Some k p r c s' :
  rmatch false
    (Seq (Chr ":") (Seq (Chr "/") (Seq (Chr "/")
       (Seq (Cls false [CSpace true]) (Star true (Cls false [CSpace true]))))))
    k (mkState p r c) = Some s' ->
  exists body r1,
    r = (list_ascii_of_string "://" ++ body ++ r1)%list
    /\ body <> []
    /\ Forall not_space body
    /\ k (mkState (p + 3 + length body) r1 c) = Some s'.
Proof.
  intros H.
  rewrite rmatch_Seq in H. apply rmatch_Chr_Some in H as [r1 [-> H]].
  rewrite rmatch_Seq in H. apply rmatch_Chr_Some in H as [r2 [-> H]].
  rewrite rmatch_Seq in H. apply rmatch_Chr_Some in H as [r3 [-> H]].
  rewrite rmatch_Seq in H.
  apply one_char_Some in H as [x [r4 [-> [Hx H]]]].
  apply rmatch_Star_Cls_Some in H as [body [r5 [-> [Hall H]]]].
  exists (x :: body), r5. split; [reflexivity|]. split; [discriminate|]. split.
  - constructor; [apply not_space_class; exact Hx|].
    eapply Forall_impl; [|exact Hall]. intros a. apply not_space_class.
  - simpl length. replace (p + 3 + S (length body)) with (S (S (S (S p))) + length body) by lia.
    exact H.
Qed.

(** A match of [URL_PATTERN]: [http://] or [https://], then one or
    more characters that are no white space, all of it in group 1. *)
Lemma url_regex_Some k p r c s' :
  rmatch false ReFind.url_regex k (mkState p r c) = Some s' ->
  exists pre body r1,
    (pre = http \/ pre = https)
    /\ r = (pre ++ body ++ r1)%list
    /\ body <> []
    /\ Forall not_space body
    /\ k (mkState (p + length (pre ++ body)%list) r1
            (set_nth 0 (Some (string_of_list_ascii (pre ++ body)%list)) c)) = Some s'.
Proof.
  intros H. unfold ReFind.url_regex in H. cbv zeta in H.
  change (rmatch false (Grp 1 ?r0) k ?s) with
    (rmatch false r0 (fun s1 => k (set_cap 1 s s1)) s) in H.
  rewrite rmatch_Seq in H. apply rmatch_Chr_Some in H as [r1 [-> H]].
  rewrite rmatch_Seq in H. apply rmatch_Chr_Some in H as [r2 [-> H]].
  rewrite rmatch_Seq in H. apply rmatch_Chr_Some in H as [r3 [-> H]].
  rewrite rmatch_Seq in H. apply rmatch_Chr_Some in H as [r4 [-> H]].
  rewrite rmatch_Seq in H. apply rmatch_Alt_Some in H as [H|H].
  - apply rmatch_Chr_Some in H as [r5 [-> H]].
    apply url_tail_Some in H as [body [r6 [-> [Hne [Hall H]]]]].
    exists https, body, r6. split; [right; reflexivity|]. split; [reflexivity|].
    split; [exact Hne|]. split; [exact Hall|].
    unfold set_cap in H. cbn [pos rest caps] in H.
    rewrite length_app.
    replace (S (S (S (S (S p)))) + 3 + length body) with (p + (length https + length body)) in H
      by (unfold https; simpl; lia).
    replace (p + (length https + length body) - p) with (length (https ++ body)%list) in H
      by (rewrite length_app; lia).
    change (firstn ?n _) with (firstn n (https ++ (body ++ r6))%list) in H.
    rewrite app_assoc, firstn_length_app in H. exact H.
  - change (rmatch false Eps ?k0 ?s) with (k0 s) in H.
    apply url_tail_Some in H as [body [r6 [-> [Hne [Hall H]]]]].
    exists http, body, r6. split; [left; reflexivity|]. split; [reflexivity|].
    split; [exact Hne|]. split; [exact Hall|].
    unfold set_cap in H. cbn [pos rest caps] in H.
    rewrite length_app.
    replace (S (S (S (S p))) + 3 + length body) with (p + (length http + length body)) in H
      by (unfold http; simpl; lia).
    replace (p + (length http + length body) - p) with (length (http ++ body)%list) in H
      by (rewrite length_app; lia).
    change (firstn ?n _) with (firstn n (http ++ (body ++ r6))%list) in H.
    rewrite app_assoc, firstn_length_app in H. exact H.
Qed.

Lemma url_match_at must at_pos s s1 :
  match_at url_pattern must (start url_pattern at_pos s) = Some s1 ->
  exists pre body r1,
    (pre = http \/ pre = https)
    /\ s = (pre ++ body ++ r1)%list
    /\ body <> []
    /\ Forall not_space body
    /\ s1 = mkState (at_pos + length (pre ++ body)%list) r1
              [Some (string_of_list_ascii (pre ++ body)%list)].
Proof.
  unfold match_at, start, url_pattern. cbn [icase expr ngroups repeat].
  intros H. apply url_regex_Some in H as [pre [body [r1 [Hpre [Hs [Hne [Hall H]]]]]]].
  exists pre, body, r1. repeat (split; [assumption|]).
  cbn [set_nth] in H.
  destruct (must && _); [discriminate|]. injection H as <-. reflexivity.
Qed.

(** Every string the scan finds is a match of the pattern inside the
    scanned text. *)
Lemma url_findall_scan_In link :
  forall fuel at_pos s must,
    In link (ReFind.findall_scan url_pattern fuel at_pos s must) ->
    exists before pre body after,
      (pre = http \/ pre = https)
      /\ s = (before ++ (pre ++ body) ++ after)%list
      /\ body <> []
      /\ Forall not_space body
      /\ link = string_of_list_ascii (pre ++ body)%list.
Proof.
  induction fuel as [|f IH]; intros at_pos s must Hin; [destruct Hin|].
  cbn [ReFind.findall_scan] in Hin.
  destruct (match_at url_pattern must (start url_pattern at_pos s)) as [s1|] eqn:E.
  - apply url_match_at in E as [pre [body [r1 [Hpre [Hs [Hne [Hall ->]]]]]]].
    destruct Hin as [Hfound|Hin].
    + exists [], pre, body, r1. split; [exact Hpre|]. split.
      { rewrite Hs, <- app_assoc. reflexivity. }
      split; [exact Hne|]. split; [exact Hall|].
      rewrite <- Hfound. reflexivity.
    + cbn [pos rest] in Hin.
      apply IH in Hin as [before [pre' [body' [after [Hpre' [Hr1 [Hne' [Hall' ->]]]]]]]].
      exists ((pre ++ body) ++ before)%list, pre', body', after.
      split; [exact Hpre'|]. split.
      { rewrite Hs, Hr1, <- !app_assoc. reflexivity. }
      split; [exact Hne'|]. split; [exact Hall'|]. reflexivity.
  - destruct s as [|x s']; [destruct Hin|].
    apply IH in Hin as [before [pre' [body' [after [Hpre' [Hr1 [Hne' [Hall' ->]]]]]]]].
    exists (x :: before), pre', body', after.
    split; [exact Hpre'|]. split; [rewrite Hr1; reflexivity|].
    split; [exact Hne'|]. split; [exact Hall'|]. reflexivity.
Qed.

Lemma string_of_list_ascii_app (a b : list ascii) :
  string_of_list_ascii (a ++ b)%list
  = (string_of_list_ascii a ++ string_of_list_ascii b)%string.
Proof. induction a as [|x a IH]; simpl; [reflexivity|]. rewrite IH. reflexivity. Qed.

Lemma forallb_string_of_list (f : ascii -> bool) (l : list ascii) :
  Forall (fun x => f x = true) l ->
  UrlLib.forallb_string f (string_of_list_ascii l) = true.
Proof.
  induction 1 as [|x l Hx _ IH]; simpl; [reflexivity|]. rewrite Hx, IH. reflexivity.
Qed.

End ReFacts.

(** X16: what [on_message] takes for the links of a message.  With the
    model of [re], every string [URL_PATTERN.findall] lists is a piece of
    the text that starts with [http://] or [https://] and goes on with one
    or more characters none of which is white space. *)
Theorem extracted_links_are_http_urls content link :
  In link (ReFind.URL_PATTERN_findall content) ->
  exists before body after,
    content = (before ++ link ++ after)%string
    /\ (link = ("http://" ++ body)%string \/ link = ("https://" ++ body)%string)
    /\ body <> EmptyString
    /\ UrlLib.forallb_string (fun x => negb (Re.is_space x)) body = true.
Proof.
  unfold ReFind.URL_PATTERN_findall. rewrite ReFacts.URL_PATTERN_compiled.
  unfold ReFind.findall. intros Hin.
  apply ReFacts.url_findall_scan_In in Hin
    as [before [pre [body [after [Hpre [Hs [Hne [Hall ->]]]]]]]].
  exists (string_of_list_ascii before), (string_of_list_ascii body),
    (string_of_list_ascii after).
  split.
  { rewrite <- !ReFacts.string_of_list_ascii_app, <- Hs.
    symmetry. apply string_of_list_ascii_of_string. }
  split.
  { rewrite ReFacts.string_of_list_ascii_app.
    destruct Hpre as [-> | ->]; [left|right]; reflexivity. }
  split.
  { destruct body; [contradiction|discriminate]. }
  apply ReFacts.forallb_string_of_list. eapply Forall_impl; [|exact Hall].
  intros a Ha. unfold ReFind.not_space in Ha. rewrite Ha. reflexivity.
Qed.

(** ** The further properties on the examples *)

Section ConcreteExtras.

Import Examples.
Import Cog.
Import CogExamples.

#[local] Existing Instance ascii_lib.
#[local] Existing Instance ascii_cog_lib.

Lemma unmatched_url_is_returned_as_is_witness :
  clean_url "https://other.example/a?utm_source=x" example_rules true
  = Ok (PStr "https://other.example/a?utm_source=x").
Proof.
  apply (unmatched_url_is_returned_as_is "https://other.example/a?utm_source=x"
           example_rules true).
  constructor; [vm_compute; reflexivity | constructor].
Defined.

Lemma never_blocked_without_complete_provider_witness :
  clean_url "https://go.example/?u=https%3A%2F%2Fexample.com%2Fa" redirect_rules true
  <> Ok PFalse.
Proof.
  apply (never_blocked_without_complete_provider
           "https://go.example/?u=https%3A%2F%2Fexample.com%2Fa" redirect_rules true).
  constructor; [reflexivity|]. constructor; [reflexivity|]. constructor.
Defined.

Lemma bad_url_pattern_fails_every_call_witness :
  clean_url "https://other.example/" broken_rules true = Raise re_error.
Proof.
  apply (bad_url_pattern_fails_every_call broken_rules true
           [("example", example_com)] "broken" broken [] "https://other.example/"
           "https://other.example/").
  - reflexivity.
  - vm_compute. reflexivity.
  - vm_compute. reflexivity.
Defined.

Lemma rules_are_compiled_only_against_pairs_witness :
  clean_query bad_rule "https://example.com/a" = Ok "https://example.com/a"
  /\ clean_query bad_rule "https://example.com/a?x=1" = Raise re_error.
Proof.
  split.
  - assert (Hp : urlparse "https://example.com/a"
                 = Some (mkParseResult "https" "example.com" "/a" "" "" ""))
      by (vm_compute; reflexivity).
    destruct (rules_are_compiled_only_against_pairs bad_rule _ _ Hp) as [H _].
    rewrite H; vm_compute; reflexivity.
  - assert (Hp : urlparse "https://example.com/a?x=1"
                 = Some (mkParseResult "https" "example.com" "/a" "" "x=1" ""))
      by (vm_compute; reflexivity).
    destruct (rules_are_compiled_only_against_pairs bad_rule _ _ Hp) as [_ H].
    apply (H "(" []).
    + reflexivity.
    + vm_compute. reflexivity.
    + vm_compute. discriminate.
Defined.

Lemma rule_order_is_irrelevant_witness :
  for_rules ["^utm_"; "^id$"] [("utm_source", "x"); ("id", "1"); ("ref", "y")]
  = for_rules ["^id$"; "^utm_"] [("utm_source", "x"); ("id", "1"); ("ref", "y")].
Proof.
  apply (rule_order_is_irrelevant ["^utm_"; "^id$"] ["^id$"; "^utm_"]).
  - apply perm_swap.
  - vm_compute. reflexivity.
Defined.

Lemma loop_flag_only_matters_for_redirections_witness :
  clean_url example_url example_rules true = clean_url example_url example_rules false.
Proof.
  apply (loop_flag_only_matters_for_redirections example_url example_rules).
  constructor; [reflexivity | constructor].
Defined.

Lemma providers_apply_in_sequence_witness :
  clean_url "https://x/?utm=1&id=2" (mkRules (Some ([("utm", utm_x)] ++ [("id", id_only)])%list))
    false
  = clean_url "https://x/?id=2" (mkRules (Some [("id", id_only)])) false.
Proof.
  apply (providers_apply_in_sequence [("utm", utm_x)] [("id", id_only)]
           "https://x/?utm=1&id=2" "https://x/?id=2").
  vm_compute. reflexivity.
Defined.

Lemma blocked_link_raises_AttributeError_witness :
  on_message blocked_message (with_rules blocking_rules)
  = (with_rules blocking_rules, Some AttributeError).
Proof.
  apply (blocked_link_raises_AttributeError blocked_message (with_rules blocking_rules)
           blocking_rules).
  - reflexivity.
  - reflexivity.
  - intros link Hin. vm_compute in Hin.
    destruct Hin as [<- | [<- | []]]; eexists; vm_compute; reflexivity.
  - exists "https://go.example/x". split; vm_compute; [right; left|]; reflexivity.
Defined.

Lemma no_reply_when_nothing_changes_witness :
  on_message clean_message (with_rules example_rules) = (with_rules example_rules, None).
Proof.
  apply (no_reply_when_nothing_changes clean_message (with_rules example_rules)
           example_rules).
  - reflexivity.
  - intros link Hin. vm_compute in Hin.
    destruct Hin as [<- | [<- | []]]; eexists; split; vm_compute; reflexivity.
Defined.

Lemma on_message_reports_only_changed_links_witness :
  on_message tracked_message (with_rules example_rules) = (tracked_reply, None)
  /\ conf_rules tracked_reply = conf_rules (with_rules example_rules)
  /\ conf_url tracked_reply = conf_url (with_rules example_rules)
  /\ open_sessions tracked_reply = open_sessions (with_rules example_rules)
  /\ (sent tracked_reply = sent (with_rules example_rules)
      \/ exists cleaned,
           cleaned <> []
           /\ sent tracked_reply
              = (sent (with_rules example_rules) ++ [response cleaned])%list
           /\ forall c, In c cleaned ->
                exists link, In link (URL_PATTERN_findall (content tracked_message))
                             /\ clean_url link example_rules true = Ok (PStr c)
                             /\ changed link c = true).
Proof.
  set (w := with_rules example_rules). set (w' := tracked_reply).
  assert (Hrun : on_message tracked_message w = (w', None)) by (vm_compute; reflexivity).
  split; [exact Hrun|].
  apply (on_message_reports_only_changed_links tracked_message w w' example_rules).
  - intros l x H. exact (proj1 (nodup_In string_dec l x) H).
  - reflexivity.
  - exact Hrun.
Defined.

Lemma failed_update_keeps_configuration_witness :
  conf_rules (scrub_update (Some "https://nowhere.example/") (with_rules example_rules))
  = Doc example_rules
  /\ conf_url (scrub_update (Some "https://nowhere.example/") (with_rules example_rules))
     = conf_url registered_defaults
  /\ open_sessions
       (scrub_update (Some "https://nowhere.example/") (with_rules example_rules))
     = 1
  /\ sent (scrub_update (Some "https://nowhere.example/") (with_rules example_rules))
     = ["Rules update failed (see log for details)"].
Proof.
  apply (failed_update_keeps_configuration (Some "https://nowhere.example/")
           (with_rules example_rules)).
  vm_compute. reflexivity.
Defined.

Lemma successful_update_stores_rules_and_url_witness :
  conf_rules (scrub_update (Some "https://rules.example/data.json") registered_defaults)
  = Doc example_rules
  /\ conf_url (scrub_update (Some "https://rules.example/data.json") registered_defaults)
     = Some "https://rules.example/data.json"
  /\ open_sessions
       (scrub_update (Some "https://rules.example/data.json") registered_defaults)
     = 0
  /\ sent (scrub_update (Some "https://rules.example/data.json") registered_defaults)
     = ["Rules updated"].
Proof.
  apply (successful_update_stores_rules_and_url (Some "https://rules.example/data.json")
           registered_defaults (Doc example_rules)).
  vm_compute. reflexivity.
Defined.

Lemma stored_url_stays_nonempty_witness :
  truthy (conf_url (scrub_update (Some EmptyString) registered_defaults)) = true.
Proof.
  apply (stored_url_stays_nonempty (Some EmptyString) registered_defaults).
  reflexivity.
Defined.

Lemma no_stored_rules_raises_TypeError_witness :
  on_message tracked_message registered_defaults = (registered_defaults, Some TypeError)
  /\ on_message tracked_message (scrub_update None registered_defaults)
     = (scrub_update None registered_defaults, Some TypeError).
Proof.
  destruct (no_stored_rules_raises_TypeError tracked_message None registered_defaults)
    as [H1 H2].
  - reflexivity.
  - vm_compute. discriminate.
  - reflexivity.
  - split; [exact H1|]. apply H2. vm_compute. reflexivity.
Defined.

Lemma no_reply_for_unmatched_links_witness :
  on_message (mkMessage false "see http://other.example/a?utm_source=x")
    (with_rules example_rules)
  = (with_rules example_rules, None).
Proof.
  apply (no_reply_for_unmatched_links
           (mkMessage false "see http://other.example/a?utm_source=x")
           (with_rules example_rules) example_rules).
  - reflexivity.
  - intros link Hin. vm_compute in Hin. destruct Hin as [<- | []].
    constructor; [vm_compute; reflexivity | constructor].
Defined.

Lemma extracted_links_are_http_urls_witness :
  exists before body after,
    content tracked_message
    = (before ++ "https://example.com/a?utm_source=x&id=1" ++ after)%string
    /\ ("https://example.com/a?utm_source=x&id=1" = ("http://" ++ body)%string
        \/ "https://example.com/a?utm_source=x&id=1" = ("https://" ++ body)%string)
    /\ body <> EmptyString
    /\ UrlLib.forallb_string (fun x => negb (Re.is_space x)) body = true.
Proof.
  apply (extracted_links_are_http_urls (content tracked_message)
           "https://example.com/a?utm_source=x&id=1").
  vm_compute. left. reflexivity.
Defined.

Lemma rebuilt_url_parses_to_same_frame_witness :
  exists kept,
    for_rules (rules example_com ++ referralMarketing example_com)
      (parse_qsl (query example_parsed)) = Ok kept
    /\ urlparse "https://example.com/a?id=1&id=2"
       = Some (with_query example_parsed (urlencode kept))
    /\ same_frame (with_query example_parsed (urlencode kept)) example_parsed.
Proof.
  apply (rebuilt_url_parses_to_same_frame example_com example_url example_parsed
           "https://example.com/a?id=1&id=2").
  - vm_compute. reflexivity.
  - vm_compute. discriminate.
  - vm_compute. reflexivity.
Defined.

Lemma second_pass_with_authority_witness :
  clean_url "https://example.com/a?id=1&id=2" example_rules true
  = Ok (PStr "https://example.com/a?id=1&id=2").
Proof.
  apply (second_pass_with_authority example_rules "example" example_com example_url
           "https://example.com/a?id=1&id=2").
  - reflexivity.
  - reflexivity.
  - reflexivity.
  - intros parsed Hp. vm_compute in Hp. injection Hp as <-. vm_compute. discriminate.
  - vm_compute. reflexivity.
Defined.

End ConcreteExtras.

(** ** The fields of a query, and the URLs a rebuild reads back *)

Module QueryFacts.

Import UrlLib.
Import UrlLibFacts.
Import QueryFields.




Lemma join_amp_cons x h t :
  join_amp (x :: h :: t) = (x ++ String "&" (join_amp (h :: t)))%string.
Proof. reflexivity. Qed.

Lemma join_amp_split qs : join_amp (split "&" qs) = qs.
Proof.
  induction qs as [|x qs IH]; [reflexivity|].
  destruct (split_cons "&" x qs) as [h [t [Hs Hx]]].
  rewrite Hx. rewrite Hs in IH.
  destruct (Ascii.eqb x "&") eqn:E.
  - apply Ascii.eqb_eq in E as ->. rewrite join_amp_cons, IH. reflexivity.
  - destruct t as [|h' t'].
    + simpl in *. rewrite IH. reflexivity.
    + rewrite join_amp_cons. rewrite join_amp_cons in IH.
      cbn [append]. f_equal. exact IH.
Qed.

Lemma split_no_separator c qs :
  Forall (fun t => contains c t = false) (split c qs).
Proof.
  induction qs as [|x qs IH]; [repeat constructor|].
  destruct (split_cons c x qs) as [h [t [Hs Hx]]].
  rewrite Hx. rewrite Hs in IH. inversion IH as [|? ? Hh Ht]; subst.
  destruct (Ascii.eqb x c) eqn:E.
  - constructor; [reflexivity | exact IH].
  - constructor; [|exact Ht]. simpl. rewrite E, Hh. reflexivity.
Qed.

Lemma field_of_text t :
  contains "&" t = false ->
  field_text (field_of t) = t /\ well_formed (field_of t) = true.
Proof.
  intros Hamp. unfold field_of.
  destruct (split_once "=" t) as [[name value]|] eqn:E.
  - destruct (split_once_Some _ _ _ _ E) as [-> Hn].
    rewrite contains_app in Hamp. apply orb_false_iff in Hamp as [Ha Hv].
    simpl in Hv. split; [reflexivity|]. simpl. rewrite Hn, Ha, Hv. reflexivity.
  - apply split_once_None in E. split; [reflexivity|]. simpl. rewrite E, Hamp. reflexivity.
Qed.

(** Every query string is the text of its list of fields. *)
Lemma fields_of_query qs :
  query_text (fields_of qs) = qs /\ forallb well_formed (fields_of qs) = true.
Proof.
  unfold query_text, fields_of.
  pose proof (split_no_separator "&" qs) as Hall.
  split.
  - rewrite map_map. rewrite <- (join_amp_split qs) at 2. f_equal.
    rewrite <- (map_id (split "&" qs)) at 2. apply map_ext_in.
    intros t Hin. rewrite Forall_forall in Hall. apply field_of_text, Hall, Hin.
  - apply forallb_forall. intros f Hin. apply in_map_iff in Hin as [t [<- Ht]].
    rewrite Forall_forall in Hall. apply field_of_text, Hall, Ht.
Qed.

(** *** Reading back a URL without authority *)




End QueryFacts.

(** ** The query step on the model of [urllib.parse], and the order of the tests *)

Section QueryStep.

Import Examples.
Import FurtherExamples.

#[local] Existing Instance ascii_lib.




(** C9, as stated, fails on a complete provider: the test of
    completeProvider comes before the exceptions, so a provider with the
    flag set blocks the URL although one of its exceptions matches it. *)
Lemma complete_provider_with_exception_counterexample :
  prefix_matches (urlPattern complete_with_exception)
    "https://example.com/keep?utm_source=x" = true
  /\ In "^https://example\.com/keep" (exceptions complete_with_exception)
  /\ prefix_matches "^https://example\.com/keep"
       "https://example.com/keep?utm_source=x" = true
  /\ provider_step no_self true complete_with_exception
       "https://example.com/keep?utm_source=x" = Ok (Return PFalse)
  /\ provider_step no_self true complete_with_exception
       "https://example.com/keep?utm_source=x"
     <> Ok (Continue "https://example.com/keep?utm_source=x")
  /\ clean_url "https://example.com/keep?utm_source=x" complete_with_exception_rules true
     = Ok PFalse.
Proof.
  split; [vm_compute; reflexivity|].
  split; [left; reflexivity|].
  split; [vm_compute; reflexivity|].
  split; [vm_compute; reflexivity|].
  split; [vm_compute; discriminate|].
  vm_compute. reflexivity.
Qed.




End QueryStep.
